(** * pm2-notify: the aggregation and debounced-dispatch pipeline of [src/app.ts]

    A shallow embedding of [aggregateLogs], [sendMail], [handleEvent],
    [verifySmtpConnection] and the start-up routine, with the module-level
    variables [queues] and [mailTimeout] threaded as an explicit state.

    JavaScript strings are modelled as [string], arrays as [list], the
    module-level object [queues] (keyed by event type, enumerated in creation
    order) as an association list in which the key [__proto__] stands for
    the array installed as prototype, and the local object [content] of
    [aggregateLogs] as an ordinary JavaScript object: own properties over the
    prototype [Object.prototype]. *)

From Stdlib Require Import String Ascii List Bool Arith NArith Lia.
From Stdlib Require Import Permutation Sorted.
Import ListNotations.
Open Scope string_scope.
Open Scope list_scope.

(** ** JavaScript helpers *)

(** [String.prototype.includes]: [needle] occurs somewhere in [s]. *)
Fixpoint includes (s needle : string) : bool :=
  String.prefix needle s ||
  match s with
  | EmptyString => false
  | String _ rest => includes rest needle
  end.

(** [Array.prototype.includes] on an array of strings. *)
Fixpoint array_includes (l : list string) (x : string) : bool :=
  match l with
  | [] => false
  | y :: l' => String.eqb y x || array_includes l' x
  end.

(** [arr.splice(start, count)]: the removed elements and what stays in [arr]. *)
Definition splice {A : Type} (arr : list A) (start count : nat) : list A * list A :=
  (firstn count (skipn start arr), firstn start arr ++ skipn (start + count) arr).

(** Property lookup in an object whose keys are enumerated in creation order. *)
Fixpoint lookup {V : Type} (k : string) (o : list (string * V)) : option V :=
  match o with
  | [] => None
  | (k', v) :: o' => if String.eqb k' k then Some v else lookup k o'
  end.

(** ** Ordinary objects used as dictionaries

    [const content: Record<string, string> = {}] is an ordinary object: a read
    [content[k]] that finds no own property continues in [Object.prototype],
    and [Object.entries] lists the own properties with array-index keys first,
    in ascending order, followed by the other keys in creation order. *)
Module JsObject.

Inductive value : Type :=
| Undefined
| Str (s : string)
| Native (fname : string)      (* a built-in function, by its name *)
| ObjectPrototype.             (* the object [Object.prototype] itself *)

(** The function-valued properties of [Object.prototype] (Node.js). *)
Definition prototype_methods : list string :=
  [ "__defineGetter__"; "__defineSetter__"; "hasOwnProperty";
    "__lookupGetter__"; "__lookupSetter__"; "isPrototypeOf";
    "propertyIsEnumerable"; "toString"; "valueOf"; "toLocaleString" ].

(** [Object.prototype[k]]. *)
Definition object_prototype (k : string) : value :=
  if String.eqb k "constructor" then Native "Object"
  else if String.eqb k "__proto__" then ObjectPrototype
  else if array_includes prototype_methods k then Native k
  else Undefined.

(** Own properties, in creation order. *)
Definition t : Type := list (string * value).

Definition empty : t := [].

(** [o[k]] *)
Definition get (o : t) (k : string) : value :=
  match lookup k o with
  | Some v => v
  | None => object_prototype k
  end.

Fixpoint update (o : t) (k : string) (v : value) : t :=
  match o with
  | [] => [(k, v)]
  | (k', v') :: o' =>
      if String.eqb k' k then (k', v) :: o' else (k', v') :: update o' k v
  end.

(** [o[k] = v].  The key [__proto__] is the accessor of [Object.prototype]:
    its setter ignores a string and, given [Object.prototype] itself, keeps
    the prototype; these are the only values this program assigns to it, and
    no own property is created.  Every other inherited property is a
    writable data property, so the assignment creates an own property. *)
Definition set (o : t) (k : string) (v : value) : t :=
  if String.eqb k "__proto__" then o else update o k v.

(** ToBoolean *)
Definition truthy (v : value) : bool :=
  match v with
  | Undefined => false
  | Str s => negb (String.eqb s EmptyString)
  | Native _ => true
  | ObjectPrototype => true
  end.

(** ToString *)
Definition to_string (v : value) : string :=
  match v with
  | Undefined => "undefined"
  | Str s => s
  | Native f => "function " ++ f ++ "() { [native code] }"
  | ObjectPrototype => "[object Object]"
  end.

(** [v || ''] *)
Definition or_empty (v : value) : value :=
  if truthy v then v else Str EmptyString.

(** [v + s] for a string [s] *)
Definition plus (v : value) (s : string) : value :=
  Str (to_string v ++ s).

(** Array indices: canonical decimal numerals below [2^32 - 1]. *)
Definition digit (c : ascii) : option N :=
  let n := N_of_ascii c in
  if (48 <=? n)%N && (n <=? 57)%N then Some (n - 48)%N else None.

Fixpoint digits (s : string) (acc : N) : option N :=
  match s with
  | EmptyString => Some acc
  | String c rest =>
      match digit c with
      | Some d => digits rest (10 * acc + d)%N
      | None => None
      end
  end.

Definition array_index (k : string) : option N :=
  match k with
  | EmptyString => None
  | String c rest =>
      if Ascii.eqb c "0" && negb (String.eqb rest EmptyString) then None
      else match digits k 0 with
           | Some n => if (n <? 4294967295)%N then Some n else None
           | None => None
           end
  end.

Definition is_index (kv : string * value) : bool :=
  match array_index (fst kv) with Some _ => true | None => false end.

Definition index_of (kv : string * value) : N :=
  match array_index (fst kv) with Some n => n | None => 0%N end.

Fixpoint insert_by_index (kv : string * value) (l : list (string * value)) :=
  match l with
  | [] => [kv]
  | kv' :: l' =>
      if (index_of kv <=? index_of kv')%N then kv :: l
      else kv' :: insert_by_index kv l'
  end.

Definition sort_by_index (l : list (string * value)) :=
  fold_right insert_by_index [] l.

(** [Object.entries(o)] *)
Definition entries (o : t) : list (string * value) :=
  sort_by_index (filter is_index o) ++ filter (fun kv => negb (is_index kv)) o.

End JsObject.

(** ** Data model ([types.ts] is not part of the sources; the fields are the
       ones [app.ts] reads and writes) *)

Definition Target : Type := string.

(** [QData]: [{ event, name, message }] *)
Record QData : Type := mkQData {
  q_event : Target;
  q_name : string;
  q_message : string
}.

(** [Log]: [{ name, message }] *)
Record Log : Type := mkLog {
  log_name : string;
  log_message : string
}.

(** [Packet]: [packet.process.name] and [packet.data] *)
Record Packet : Type := mkPacket {
  process_name : string;
  data : string
}.

(** [config]: [config.target] maps an event type to its watch-list. *)
Record Config : Type := mkConfig {
  target : list (Target * list string);
  timeout : nat;
  mail_subject : string
}.

(** [mjml2html(content)] returns [{ errors, html }]. *)
Record Mjml : Type := mkMjml {
  errors : list string;
  html : string
}.

(** [const eventTypes = Object.keys(config.target)] *)
Definition eventTypes (config : Config) : list Target :=
  map fst (target config).

Definition Queues : Type := list (Target * list QData).

(** [queues] is an ordinary object as well.  The assignment
    [queues['__proto__'] = []] goes to the accessor of [Object.prototype]: it
    creates no property and installs the new array as the prototype of
    [queues], and from then on [queues['__proto__']] reads that array.  In a
    value of [Queues] the pair with the key [__proto__] stands for that
    array: [queues[event]] reaches it, [Object.entries(queues)] does not list
    it. *)
Definition enumerable (event : Target) : bool :=
  negb (String.eqb event "__proto__").

(** [Object.entries(queues)] *)
Definition own_queues (qs : Queues) : Queues :=
  filter (fun eq => enumerable (fst eq)) qs.

(** [eventTypes.forEach((event) => { queues[event] = []; })]; for the key
    [__proto__] the pair added is the array installed as prototype. *)
Definition initial_queues (config : Config) : Queues :=
  fold_left (fun qs ev => match lookup ev qs with
                          | Some _ => qs
                          | None => qs ++ [(ev, [])]
                          end)
            (eventTypes config) [].

(** ** The pipeline

    The collaborators that are not part of the repository are parameters:
    [encode] is [he.encode], [template] is the compiled handlebars template
    applied to [{ logs }], [mjml2html] is the MJML compiler. *)
Section Pipeline.

Variable encode : string -> string.
Variable template : list Log -> string.
Variable mjml2html : string -> Mjml.
Variable config : Config.

(** *** [aggregateLogs] *)

(** One iteration of the inner loop:
    [content[data.name] = content[data.name] || '';]
    [content[data.name] += data.message;] *)
Definition add_fragment (content : JsObject.t) (d : QData) : JsObject.t :=
  let content :=
    JsObject.set content (q_name d)
      (JsObject.or_empty (JsObject.get content (q_name d))) in
  JsObject.set content (q_name d)
    (JsObject.plus (JsObject.get content (q_name d)) (q_message d)).

(** [logs.push({ name: `${name} ${event}`, message: he.encode(message) })].
    Every own property of [content] holds a string ([content_holds_strings]
    below), on which [to_string] is the identity. *)
Definition log_entry (event : Target) (kv : string * JsObject.value) : Log :=
  mkLog (fst kv ++ " " ++ event) (encode (JsObject.to_string (snd kv))).

(** The body of the outer loop for one [[event, qdata]] pair: the entries
    pushed to [logs] and what is left in the array [qdata]. *)
Definition aggregate_queue (event : Target) (qdata : list QData)
  : list Log * list QData :=
  let (removed, rest) := splice qdata 0 (length qdata) in
  let content := fold_left add_fragment removed JsObject.empty in
  (map (log_entry event) (JsObject.entries content), rest).

(** [for (const [event, qdata] of Object.entries(queues))], with [logs]
    accumulated so far; the array held as prototype is not visited. *)
Fixpoint aggregate_from (logs : list Log) (queues : Queues)
  : list Log * Queues :=
  match queues with
  | [] => (logs, [])
  | (event, qdata) :: others =>
      if enumerable event then
        let (pushed, rest) := aggregate_queue event qdata in
        let (logs', others') := aggregate_from (logs ++ pushed) others in
        (logs', (event, rest) :: others')
      else
        let (logs', others') := aggregate_from logs others in
        (logs', (event, qdata) :: others')
  end.

(** [aggregateLogs()]: the returned logs and the queues afterwards. *)
Definition aggregateLogs (queues : Queues) : list Log * Queues :=
  aggregate_from [] queues.

(** *** Module state and observable effects *)

Inductive Effect : Type :=
| Rendered (logs : list Log)               (* [template({ logs })] *)
| SendMailCall (subject body : string)     (* [transporter.sendMail({ subject, html })] *)
| ConsoleLog (msg : string)
| ConsoleError (msg : string).

Record State : Type := mkState {
  queues : Queues;
  mailTimeout : option nat;   (* the handle stored by [handleEvent], or [null] *)
  timers : list nat;          (* handles given out by [setTimeout] whose callback has not run *)
  next_handle : nat;
  in_flight : nat;            (* [sendMail] calls suspended at [await transporter.sendMail] *)
  effects : list Effect       (* oldest first *)
}.

Definition initial_state : State :=
  mkState (initial_queues config) None [] 0 0 [].

(** [`${eventName || 'log:err'}-${config.mail.subject}`] *)
Definition subject_of (eventName : Target) : string :=
  (if String.eqb eventName EmptyString then "log:err" else eventName)
    ++ "-" ++ mail_subject config.

(** *** [sendMail]

    The part of [sendMail(eventName)] that runs synchronously in the call:
    up to [await transporter.sendMail(...)], or, when MJML reports errors,
    through [throw], [catch] and [finally]. *)
Definition sendMail (s : State) (eventName : Target) : State :=
  let (logs, qs) := aggregateLogs (queues s) in
  let content := template logs in
  let result := mjml2html content in
  match errors result with
  | [] =>
      mkState qs (mailTimeout s) (timers s) (next_handle s)
        (S (in_flight s))
        (effects s ++ [Rendered logs;
                       SendMailCall (subject_of eventName) (html result)])
  | _ :: _ =>
      mkState qs None (timers s) (next_handle s) (in_flight s)
        (effects s ++ [Rendered logs; ConsoleError "Error sending mail:"])
  end.

(** The rest of a suspended [sendMail] once the promise of
    [transporter.sendMail] settles: [console.log('SendMail', info)] or the
    [catch] block, then [finally { mailTimeout = null; }]. *)
Definition sendMail_resume (s : State) (delivered : bool) : State :=
  mkState (queues s) None (timers s) (next_handle s)
    (pred (in_flight s))
    (effects s ++ [if delivered then ConsoleLog "SendMail"
                   else ConsoleError "Error sending mail:"]).

(** *** [handleEvent] *)

(** [queues[event].push(d)]; [None] when [queues[event]] is [undefined].
    For the event [__proto__] this is a push onto the array held as
    prototype of [queues]. *)
Fixpoint push (qs : Queues) (event : Target) (d : QData) : option Queues :=
  match qs with
  | [] => None
  | (e, q) :: others =>
      if String.eqb e event then Some ((e, q ++ [d]) :: others)
      else option_map (cons (e, q)) (push others event d)
  end.

(** [mailTimeout = setTimeout(() => sendMail(event), config.timeout)] *)
Definition arm_timer (s : State) : State :=
  mkState (queues s) (Some (next_handle s)) (timers s ++ [next_handle s])
    (S (next_handle s)) (in_flight s) (effects s).

Definition with_queues (s : State) (qs : Queues) : State :=
  mkState qs (mailTimeout s) (timers s) (next_handle s) (in_flight s)
    (effects s).

(** [handleEvent(event, packet)]; [None] is the [TypeError] of reading a
    property of [undefined] when [event] is not a key of [config.target]. *)
Definition handleEvent (s : State) (event : Target) (packet : Packet)
  : option State :=
  match lookup event (target config) with
  | None => None
  | Some watched =>
      if negb (array_includes watched (process_name packet)) then Some s
      else
        match push (queues s) event
                (mkQData event (process_name packet) (data packet)) with
        | None => None
        | Some qs =>
            let s := with_queues s qs in
            if String.eqb event "log:err" then
              match mailTimeout s with
              | None => Some (arm_timer s)
              | Some _ => Some s
              end
            else if includes (data packet) "BROADCST:EMAIL" then
              Some (sendMail s event)
            else Some s
        end
  end.

(** *** The event loop

    What can happen to the running process: the bus emits an event, an armed
    timer fires, or the promise of a pending [transporter.sendMail]
    settles. *)
Inductive Stimulus : Type :=
| Emit (event : Target) (packet : Packet)
| TimerFires (handle : nat)
| SendSettles (delivered : bool).

Definition remove_handle (h : nat) (l : list nat) : list nat :=
  filter (fun h' => negb (Nat.eqb h' h)) l.

(** The timer [h] has fired: its callback is about to run. *)
Definition disarm (s : State) (h : nat) : State :=
  mkState (queues s) (mailTimeout s) (remove_handle h (timers s))
    (next_handle s) (in_flight s) (effects s).

(** [None]: the stimulus cannot occur in [s], or the handler throws. *)
Definition step (s : State) (x : Stimulus) : option State :=
  match x with
  | Emit event packet =>
      (* [bus.on(event, ...)] is registered for the keys of [config.target] *)
      if array_includes (eventTypes config) event
      then handleEvent s event packet
      else Some s
  | TimerFires h =>
      if existsb (Nat.eqb h) (timers s) then
        (* the callback [() => sendMail(event)], armed with [event === 'log:err'] *)
        Some (sendMail (disarm s h) "log:err")
      else None
  | SendSettles delivered =>
      match in_flight s with
      | O => None
      | S _ => Some (sendMail_resume s delivered)
      end
  end.

Fixpoint run (s : State) (xs : list Stimulus) : option State :=
  match xs with
  | [] => Some s
  | x :: xs' =>
      match step s x with
      | Some s' => run s' xs'
      | None => None
      end
  end.

End Pipeline.

(** ** Start-up: [verifySmtpConnection] and the main async function

    An async computation produces console output, may subscribe to the bus,
    and ends fulfilled, rejected, or by [process.exit]. *)
Module Startup.

Inductive Action : Type :=
| Print (msg : string)            (* [console.log] *)
| PrintError (msg : string)       (* [console.error] *)
| Exit (code : nat)               (* [process.exit(code)] *)
| Subscribe (event : Target).     (* [bus.on(event, ...)] *)

Inductive Outcome (A : Type) : Type :=
| Fulfilled (a : A)
| Rejected
| Exited (code : nat).
Arguments Fulfilled {A} a.
Arguments Rejected {A}.
Arguments Exited {A} code.

Definition Async (A : Type) : Type := list Action * Outcome A.

Definition ret {A : Type} (a : A) : Async A := ([], Fulfilled a).

Definition bind {A B : Type} (m : Async A) (k : A -> Async B) : Async B :=
  match m with
  | (done, Fulfilled a) => let (more, o) := k a in (done ++ more, o)
  | (done, Rejected) => (done, Rejected)
  | (done, Exited code) => (done, Exited code)
  end.

Notation "m ;; k" := (bind m (fun _ => k))
  (at level 61, right associativity).

Definition act (a : Action) : Async unit := ([a], Fulfilled tt).

(** [process.exit(code)]: nothing after it runs. *)
Definition process_exit (code : nat) : Async unit :=
  ([Exit code], Exited code).

(** [await p] for a promise [p] that is fulfilled or rejected. *)
Definition await (fulfilled : bool) : Async unit :=
  ([], if fulfilled then Fulfilled tt else Rejected).

(** [try { m } catch (err) { handler }], also [m.catch(handler)]. *)
Definition try_catch {A : Type} (m handler : Async A) : Async A :=
  match m with
  | (done, Rejected) => let (more, o) := handler in (done ++ more, o)
  | _ => m
  end.

Fixpoint for_each {A : Type} (l : list A) (body : A -> Async unit)
  : Async unit :=
  match l with
  | [] => ret tt
  | x :: l' => body x ;; for_each l' body
  end.

(** What the outside world answers during start-up. *)
Record World : Type := mkWorld {
  smtp_verified : bool;      (* [transporter.verify()] is fulfilled *)
  pm2_connected : bool;      (* [pm2.connect] calls back without an error *)
  bus_launched : bool        (* [pm2.launchBus] calls back without an error *)
}.

Definition verifySmtpConnection (w : World) : Async unit :=
  try_catch
    (await (smtp_verified w) ;;
     act (Print "SMTP server is ready to take messages"))
    (act (PrintError "SMTP connection failed:") ;;
     process_exit 1).

(** The body of the async function at the end of [app.ts]. *)
Definition main_body (events : list Target) (w : World) : Async unit :=
  verifySmtpConnection w ;;
  await (pm2_connected w) ;;
  act (Print "[PM2] Log streaming connected") ;;
  await (bus_launched w) ;;
  act (Print "[PM2] Log streaming launched") ;;
  for_each events (fun event =>
    act (Print ("[PM2] " ++ event ++ " streaming started")) ;;
    act (Subscribe event)).

(** [(async () => { ... })().catch((err) => { console.error('Fatal error:', err); })] *)
Definition main (events : list Target) (w : World) : Async unit :=
  try_catch (main_body events w) (act (PrintError "Fatal error:")).

(** The status passed to [process.exit], if the program called it.  Without
    such a call the exit code of the process stays at its default, 0. *)
Definition exit_status {A : Type} (m : Async A) : option nat :=
  match snd m with
  | Exited code => Some code
  | _ => None
  end.

Definition is_subscribe (a : Action) : bool :=
  match a with Subscribe _ => true | _ => false end.

Definition subscriptions {A : Type} (m : Async A) : list Action :=
  filter is_subscribe (fst m).

End Startup.

(** ** Definitions used to state the properties *)

(** The payloads queued for process [k], concatenated in arrival order. *)
Fixpoint payloads (k : string) (qdata : list QData) : string :=
  match qdata with
  | [] => EmptyString
  | d :: rest =>
      if String.eqb (q_name d) k then q_message d ++ payloads k rest
      else payloads k rest
  end.

(** Whether some fragment of [qdata] comes from process [k]. *)
Definition mentions (k : string) (qdata : list QData) : bool :=
  existsb (fun d => String.eqb (q_name d) k) qdata.

(** The logs handed to the template by each dispatch, oldest first. *)
Fixpoint rendered (es : list Effect) : list (list Log) :=
  match es with
  | [] => []
  | Rendered logs :: es' => logs :: rendered es'
  | _ :: es' => rendered es'
  end.

(** The calls made to [transporter.sendMail], oldest first. *)
Fixpoint send_calls (es : list Effect) : list (string * string) :=
  match es with
  | [] => []
  | SendMailCall subject body :: es' => (subject, body) :: send_calls es'
  | _ :: es' => send_calls es'
  end.

Definition all_empty (qs : Queues) : Prop :=
  forall ev q, In (ev, q) qs -> q = [].

(** Every queue that [Object.entries(queues)] lists emptied, keys and their
    order kept. *)
Definition emptied (qs : Queues) : Queues :=
  map (fun eq => if enumerable (fst eq) then (fst eq, @nil QData) else eq) qs.

(** The entries of every category that [Object.entries(queues)] lists,
    categories in the order of [queues]. *)
Definition logs_of_all (encode : string -> string) (qs : Queues) : list Log :=
  flat_map (fun eq => fst (aggregate_queue encode (fst eq) (snd eq)))
           (own_queues qs).

(** What [content[k]] reads before the first fragment of process [k] is
    added to the empty [content]: the text of [Object.prototype[k] || '']. *)
Definition inherited_prefix (k : string) : string :=
  JsObject.to_string (JsObject.or_empty (JsObject.object_prototype k)).

(** The fragments of [ds] that belong to category [ev], in order. *)
Definition of_category (ev : Target) (ds : list QData) : list QData :=
  filter (fun d => String.eqb (q_event d) ev) ds.

(** [queues[d.event].push(d)] for each [d] of [ds] in turn. *)
Fixpoint push_all (qs : Queues) (ds : list QData) : option Queues :=
  match ds with
  | [] => Some qs
  | d :: ds' =>
      match push qs (q_event d) d with
      | Some qs' => push_all qs' ds'
      | None => None
      end
  end.

(** The stimulus starts a dispatch straight from [handleEvent]: an event
    outside [log:err] whose payload carries the broadcast marker. *)
Definition is_broadcast (x : Stimulus) : bool :=
  match x with
  | Emit event packet =>
      negb (String.eqb event "log:err")
      && includes (data packet) "BROADCST:EMAIL"
  | _ => false
  end.

(** The debounce discipline: at most one armed timer or suspended dispatch,
    and none at all while [mailTimeout] is [null]. *)
Definition debounced (s : State) : Prop :=
  length (timers s) + in_flight s <= 1 /\
  (mailTimeout s = None -> timers s = [] /\ in_flight s = 0).

(** Settle every pending [transporter.sendMail] promise of [s]. *)
Definition settle_all (s : State) : list Stimulus :=
  repeat (SendSettles true) (in_flight s).

(** ** Sample configuration and collaborators *)

Definition sample_config : Config :=
  mkConfig [("log:err", ["svc"; "constructor"]); ("log:out", ["svc"])]
           5000 "pm2 notification".

(** An escape function in the style of [he.encode] on ASCII text. *)
Fixpoint sample_encode (s : string) : string :=
  match s with
  | EmptyString => EmptyString
  | String c rest =>
      (if Ascii.eqb c "&" then "&#x26;"
       else if Ascii.eqb c "<" then "&#x3C;"
       else if Ascii.eqb c ">" then "&#x3E;"
       else if Ascii.eqb c (ascii_of_nat 34) then "&#x22;"
       else if Ascii.eqb c "'" then "&#x27;"
       else if Ascii.eqb c "`" then "&#x60;"
       else String c EmptyString) ++ sample_encode rest
  end.

Fixpoint sample_template (logs : list Log) : string :=
  match logs with
  | [] => "<mjml></mjml>"
  | l :: logs' => log_name l ++ ": " ++ log_message l ++ "; " ++ sample_template logs'
  end.

Definition sample_mjml (content : string) : Mjml := mkMjml [] content.

Definition failing_mjml (content : string) : Mjml :=
  mkMjml ["Element mj-foo does not exist"] EmptyString.

Definition svc (payload : string) : Packet := mkPacket "svc" payload.

(** The sample program state after the events [xs]. *)
Definition sample_run (xs : list Stimulus) : option State :=
  run sample_encode sample_template sample_mjml sample_config
      (initial_state sample_config) xs.

(** One error of [svc] queued and its timer armed. *)
Definition one_error_pending : State :=
  mkState [("log:err", [mkQData "log:err" "svc" "A"]); ("log:out", [])]
          (Some 0) [0] 1 0 [].

(** The same, with a broadcast event of [svc] just pushed by [handleEvent]. *)
Definition broadcast_pushed : State :=
  mkState [("log:err", [mkQData "log:err" "svc" "A"]);
           ("log:out", [mkQData "log:out" "svc" "BROADCST:EMAIL"])]
          (Some 0) [0] 1 0 [].

(** A dispatch of [one_error_pending] whose rendering fails. *)
Definition failed_dispatch : State :=
  sendMail sample_encode sample_template failing_mjml sample_config
           one_error_pending "log:err".

(** Timer 0 still armed after a broadcast dispatch has emptied the queues and
    its mail has been delivered. *)
Definition drained_with_timer : State :=
  mkState [("log:err", []); ("log:out", [])] None [0] 1 0
    [Rendered [mkLog "svc log:err" "A"; mkLog "svc log:out" "BROADCST:EMAIL"];
     SendMailCall "log:out-pm2 notification"
       "svc log:err: A; svc log:out: BROADCST:EMAIL; <mjml></mjml>";
     ConsoleLog "SendMail"].

(** ** Definitions used to state further properties *)

(** [name] recorded in [seen] unless it is there already; a fragment of
    [__proto__] records nothing. *)
Definition see (seen : list string) (d : QData) : list string :=
  if String.eqb (q_name d) "__proto__" then seen
  else if array_includes seen (q_name d) then seen
  else seen ++ [q_name d].

(** The process names of [qdata] in order of first appearance. *)
Definition first_seen (qdata : list QData) : list string :=
  fold_left see qdata [].

Definition names_an_index (k : string) : bool :=
  match JsObject.array_index k with Some _ => true | None => false end.

Definition index_value (k : string) : N :=
  match JsObject.array_index k with Some n => n | None => 0%N end.

(** Ascending numeric order, on properties and on their keys. *)
Definition by_index (a b : string * JsObject.value) : Prop :=
  (JsObject.index_of a <= JsObject.index_of b)%N.

Definition by_index_value (a b : string) : Prop :=
  (index_value a <= index_value b)%N.

(** The entry that [aggregateLogs] makes for process [k] of category [event]
    out of the fragments [qdata]. *)
Definition entry_for (encode : string -> string) (event : Target)
           (qdata : list QData) (k : string) : Log :=
  mkLog (k ++ " " ++ event)
        (encode (inherited_prefix k ++ payloads k qdata)%string).

(** [config.target[event].includes(packet.process.name)], for an event type
    the program is subscribed to. *)
Definition accepted (config : Config) (event : Target) (packet : Packet)
  : bool :=
  array_includes (eventTypes config) event &&
  match lookup event (target config) with
  | Some watched => array_includes watched (process_name packet)
  | None => false
  end.

(** The fragments that a sequence of bus events puts into the queues: those
    of the accepted events, in arrival order. *)
Fixpoint intake (config : Config) (xs : list Stimulus) : list QData :=
  match xs with
  | [] => []
  | Emit event packet :: xs' =>
      if accepted config event packet
      then mkQData event (process_name packet) (data packet) :: intake config xs'
      else intake config xs'
  | _ :: xs' => intake config xs'
  end.

(** Bus events only, none of which starts a dispatch by itself. *)
Definition quiet_events (xs : list Stimulus) : bool :=
  forallb (fun x => match x with
                    | Emit _ _ => negb (is_broadcast x)
                    | _ => false
                    end) xs.

(** Stimuli that call [sendMail] in no case: bus events that start no
    dispatch, and mails that settle. *)
Definition no_dispatch (xs : list Stimulus) : bool :=
  forallb (fun x => match x with
                    | Emit _ _ => negb (is_broadcast x)
                    | TimerFires _ => false
                    | SendSettles _ => true
                    end) xs.

(** The stimulus makes the program call [sendMail] in state [s]: an armed
    timer fires, or an accepted event outside [log:err] carries the
    marker. *)
Definition dispatches (config : Config) (s : State) (x : Stimulus) : bool :=
  match x with
  | Emit event packet => accepted config event packet && is_broadcast x
  | TimerFires h => existsb (Nat.eqb h) (timers s)
  | SendSettles _ => false
  end.

(** Every process name of [qdata], in order of first appearance. *)
Definition first_appearances (qdata : list QData) : list string :=
  fold_left (fun seen d => if array_includes seen (q_name d) then seen
                           else seen ++ [q_name d]) qdata [].

(** A configuration whose [target] has [__proto__] as an own key, as
    [JSON.parse] creates it. *)
Definition proto_config : Config :=
  mkConfig [("__proto__", ["svc"]); ("log:err", ["svc"])]
           5000 "pm2 notification".

(** [one_error_pending] after a plain event of [svc] on [log:out], and the
    dispatch that a broadcast event of [svc] on [log:out] then starts. *)
Definition plain_queued : State :=
  with_queues one_error_pending
    [("log:err", [mkQData "log:err" "svc" "A"]);
     ("log:out", [mkQData "log:out" "svc" "plain"])].

Definition plain_dispatched : State :=
  sendMail sample_encode sample_template sample_mjml sample_config
    (with_queues plain_queued
       [("log:err", [mkQData "log:err" "svc" "A"]);
        ("log:out", [mkQData "log:out" "svc" "plain";
                     mkQData "log:out" "svc" "BROADCST:EMAIL"])])
    "log:out".

(** Bus events of category [log:err] only. *)
Definition error_events (xs : list Stimulus) : bool :=
  forallb (fun x => match x with
                    | Emit event _ => String.eqb event "log:err"
                    | _ => false
                    end) xs.

(** A sample burst of error events, one of them of an unwatched process. *)
Definition sample_burst : list Stimulus :=
  [Emit "log:err" (mkPacket "other" "ignored"); Emit "log:err" (svc "one");
   Emit "log:err" (mkPacket "constructor" "two");
   Emit "log:err" (svc "BROADCST:EMAIL")].

(** A sample run without broadcast events. *)
Definition sample_errors : list Stimulus :=
  [Emit "log:err" (svc "A"); Emit "log:out" (svc "plain");
   Emit "log:err" (svc "B"); TimerFires 0; Emit "log:err" (svc "C");
   SendSettles false; Emit "log:err" (svc "D")].

(** * Properties *)

(** ** Strings and arrays *)

Lemma string_app_assoc (a b c : string) : ((a ++ b) ++ c = a ++ (b ++ c))%string.
Proof.
  induction a as [|x a IH]; simpl; [reflexivity | now rewrite IH].
Qed.

Lemma string_app_empty_r (a : string) : (a ++ EmptyString = a)%string.
Proof.
  induction a as [|x a IH]; simpl; [reflexivity | now rewrite IH].
Qed.

Lemma array_includes_In (l : list string) (x : string) :
  array_includes l x = true <-> In x l.
Proof.
  induction l as [|y l IH]; simpl.
  - split; [discriminate | contradiction].
  - rewrite orb_true_iff, String.eqb_eq, IH. reflexivity.
Qed.

(** [qdata.splice(0, qdata.length)] removes everything. *)
Lemma splice_everything (A : Type) (arr : list A) :
  splice arr 0 (length arr) = (arr, []).
Proof.
  unfold splice. simpl. now rewrite firstn_all, skipn_all.
Qed.

Lemma lookup_In (V : Type) (k : string) (v : V) (o : list (string * V)) :
  lookup k o = Some v -> In (k, v) o.
Proof.
  induction o as [|[k' v'] o IH]; simpl; [discriminate|].
  destruct (String.eqb_spec k' k) as [->|Hne].
  - intros [= ->]. now left.
  - intros H. right. auto.
Qed.

Lemma lookup_keys (V : Type) (k : string) (o : list (string * V)) :
  In k (map fst o) <-> lookup k o <> None.
Proof.
  induction o as [|[k' v'] o IH]; simpl.
  - split; [contradiction | congruence].
  - destruct (String.eqb_spec k' k) as [->|Hne].
    + split; [discriminate | now left].
    + rewrite <- IH. split; [intros [H|H]; [contradiction | exact H] | now right].
Qed.

Lemma In_lookup (V : Type) (k : string) (v : V) (o : list (string * V)) :
  NoDup (map fst o) -> In (k, v) o -> lookup k o = Some v.
Proof.
  induction o as [|[k' v'] o IH]; simpl; [contradiction|].
  intros Hnd [H|H].
  - injection H as -> ->. now rewrite String.eqb_refl.
  - inversion Hnd as [|? ? Hnotin Hnd']; subst.
    destruct (String.eqb_spec k' k) as [->|Hne].
    + exfalso. apply Hnotin. apply in_map_iff. now exists (k, v).
    + auto.
Qed.

(** ** Objects *)

Module JsObjectFacts.
Import JsObject.

Lemma lookup_update (o : t) (k k' : string) (v : value) :
  lookup k' (update o k v) = if String.eqb k k' then Some v else lookup k' o.
Proof.
  induction o as [|[k0 v0] o IH]; simpl.
  - reflexivity.
  - destruct (String.eqb_spec k0 k) as [->|Hne]; simpl.
    + destruct (String.eqb_spec k k'); reflexivity.
    + rewrite IH. destruct (String.eqb_spec k0 k') as [->|Hne'].
      * destruct (String.eqb_spec k k'); [congruence | reflexivity].
      * reflexivity.
Qed.

Lemma update_update (o : t) (k : string) (v1 v2 : value) :
  update (update o k v1) k v2 = update o k v2.
Proof.
  induction o as [|[k0 v0] o IH]; simpl.
  - now rewrite String.eqb_refl.
  - destruct (String.eqb_spec k0 k) as [->|Hne]; simpl.
    + now rewrite String.eqb_refl.
    + destruct (String.eqb_spec k0 k); [contradiction | now rewrite IH].
Qed.

Lemma keys_update (o : t) (k : string) (v : value) :
  map fst (update o k v) =
  if array_includes (map fst o) k then map fst o else map fst o ++ [k].
Proof.
  induction o as [|[k0 v0] o IH]; simpl.
  - reflexivity.
  - destruct (String.eqb_spec k0 k) as [->|Hne]; simpl.
    + reflexivity.
    + rewrite IH. now destruct (array_includes (map fst o) k).
Qed.

Lemma NoDup_update (o : t) (k : string) (v : value) :
  NoDup (map fst o) -> NoDup (map fst (update o k v)).
Proof.
  intros Hnd. rewrite keys_update.
  destruct (array_includes (map fst o) k) eqn:E; [exact Hnd|].
  apply NoDup_app; [exact Hnd | repeat constructor; simpl; tauto |].
  intros x Hx [<-|[]].
  apply array_includes_In in Hx. congruence.
Qed.

Lemma In_update (o : t) (k : string) (v : value) (kv : string * value) :
  In kv (update o k v) -> kv = (k, v) \/ In kv o.
Proof.
  induction o as [|[k0 v0] o IH]; simpl.
  - intros [<-|[]]. now left.
  - destruct (String.eqb_spec k0 k) as [->|Hne]; simpl.
    + intros [<-|H]; [now left | now right; right].
    + intros [<-|H]; [now right; left|].
      destruct (IH H); [now left | now right; right].
Qed.

Lemma In_insert_by_index (kv x : string * value) (l : list (string * value)) :
  In x (insert_by_index kv l) <-> x = kv \/ In x l.
Proof.
  induction l as [|y l IH]; simpl.
  - intuition congruence.
  - destruct (index_of kv <=? index_of y)%N; simpl.
    + intuition congruence.
    + rewrite IH. intuition congruence.
Qed.

Lemma In_sort_by_index (x : string * value) (l : list (string * value)) :
  In x (sort_by_index l) <-> In x l.
Proof.
  induction l as [|y l IH]; simpl.
  - reflexivity.
  - rewrite In_insert_by_index, IH. intuition congruence.
Qed.

(** [Object.entries] lists exactly the own properties. *)
Lemma In_entries (x : string * value) (o : t) :
  In x (entries o) <-> In x o.
Proof.
  unfold entries.
  rewrite in_app_iff, In_sort_by_index, !filter_In.
  destruct (is_index x); simpl; intuition congruence.
Qed.

Lemma to_string_or_empty_Str (s : string) :
  to_string (or_empty (Str s)) = s.
Proof.
  unfold or_empty. simpl.
  destruct (String.eqb_spec s EmptyString) as [->|]; reflexivity.
Qed.

Lemma get_own (o : t) (k : string) (v : value) :
  lookup k o = Some v -> get o k = v.
Proof. unfold get. now intros ->. Qed.

Lemma get_inherited (o : t) (k : string) :
  lookup k o = None -> get o k = object_prototype k.
Proof. unfold get. now intros ->. Qed.

End JsObjectFacts.

(** ** [aggregateLogs] *)

Section AggregationFacts.
Import JsObject JsObjectFacts.

Variable encode : string -> string.

Lemma add_fragment_eq (content : JsObject.t) (d : QData) :
  add_fragment content d =
  if String.eqb (q_name d) "__proto__" then content
  else update content (q_name d)
         (Str (to_string (or_empty (get content (q_name d))) ++ q_message d)).
Proof.
  unfold add_fragment, set, plus.
  destruct (String.eqb (q_name d) "__proto__"); [reflexivity|].
  rewrite update_update.
  rewrite (@get_own (update content (q_name d) _) (q_name d)
             (or_empty (get content (q_name d)))).
  - reflexivity.
  - rewrite lookup_update. now rewrite String.eqb_refl.
Qed.

Lemma payloads_unmentioned (k : string) (l : list QData) :
  mentions k l = false -> payloads k l = EmptyString.
Proof.
  induction l as [|d l IH]; simpl; [reflexivity|].
  destruct (String.eqb (q_name d) k); simpl; [discriminate | exact IH].
Qed.

(** The own property [k] of [content] after the inner loop has run over
    [l]. *)
Lemma content_lookup (l : list QData) :
  forall (content : JsObject.t) (k : string),
    k <> "__proto__" ->
    lookup k (fold_left add_fragment l content) =
    if mentions k l
    then Some (Str (to_string (or_empty (get content k)) ++ payloads k l))
    else lookup k content.
Proof.
  induction l as [|d l IH]; intros content k Hk; simpl; [reflexivity|].
  rewrite IH by exact Hk.
  rewrite add_fragment_eq.
  destruct (String.eqb_spec (q_name d) k) as [Hd|Hd]; simpl.
  - rewrite Hd.
    destruct (String.eqb_spec k "__proto__") as [|_]; [contradiction|].
    set (v := Str (to_string (or_empty (get content k)) ++ q_message d)).
    assert (Hv : lookup k (update content k v) = Some v)
      by (rewrite lookup_update; now rewrite String.eqb_refl).
    rewrite (get_own _ _ _ Hv), Hv. unfold v.
    rewrite to_string_or_empty_Str.
    destruct (mentions k l) eqn:E.
    + now rewrite string_app_assoc.
    + now rewrite (payloads_unmentioned _ _ E), string_app_empty_r.
  - destruct (String.eqb (q_name d) "__proto__"); [reflexivity|].
    assert (Hl : forall v, lookup k (update content (q_name d) v)
                           = lookup k content).
    { intros v. rewrite lookup_update.
      destruct (String.eqb_spec (q_name d) k); [contradiction | reflexivity]. }
    unfold get. rewrite Hl. reflexivity.
Qed.

(** No fragment creates an own property [__proto__]. *)
Lemma content_no_proto (l : list QData) :
  forall content : JsObject.t,
    lookup "__proto__" (fold_left add_fragment l content)
    = lookup "__proto__" content.
Proof.
  induction l as [|d l IH]; intros content; simpl; [reflexivity|].
  rewrite IH, add_fragment_eq.
  destruct (String.eqb_spec (q_name d) "__proto__") as [|Hne]; [reflexivity|].
  rewrite lookup_update.
  destruct (String.eqb_spec (q_name d) "__proto__"); [contradiction | reflexivity].
Qed.

Lemma content_NoDup (l : list QData) :
  forall content : JsObject.t,
    NoDup (map fst content) ->
    NoDup (map fst (fold_left add_fragment l content)).
Proof.
  induction l as [|d l IH]; intros content Hnd; simpl; [exact Hnd|].
  apply IH. rewrite add_fragment_eq.
  destruct (String.eqb (q_name d) "__proto__"); [exact Hnd|].
  now apply NoDup_update.
Qed.

(** Every own property of [content] holds a string, so [he.encode] is
    always applied to a string. *)
Lemma content_holds_strings (l : list QData) :
  forall content : JsObject.t,
    (forall kv, In kv content -> exists s, snd kv = Str s) ->
    forall kv, In kv (fold_left add_fragment l content) ->
               exists s, snd kv = Str s.
Proof.
  induction l as [|d l IH]; intros content Hc; simpl; [exact Hc|].
  apply IH. rewrite add_fragment_eq.
  destruct (String.eqb (q_name d) "__proto__"); [exact Hc|].
  intros kv Hkv. apply In_update in Hkv as [->|Hkv]; [|now apply Hc].
  simpl. eauto.
Qed.

Lemma aggregate_queue_eq (event : Target) (qdata : list QData) :
  aggregate_queue encode event qdata =
  (map (log_entry encode event)
       (entries (fold_left add_fragment qdata empty)), []).
Proof.
  unfold aggregate_queue. now rewrite splice_everything.
Qed.

Lemma aggregate_queue_nil (event : Target) :
  aggregate_queue encode event [] = ([], []).
Proof. reflexivity. Qed.

(** The entry of a process named [k] in the output for one category: its
    message is the escape of what [content[k]] first read, followed by the
    payloads in arrival order; and it is the only entry made from key [k]. *)
Lemma aggregated_entry (event : Target) (qdata : list QData) (k : string) :
  k <> "__proto__" ->
  mentions k qdata = true ->
  let content := fold_left add_fragment qdata empty in
  In (mkLog (k ++ " " ++ event)
            (encode (inherited_prefix k ++ payloads k qdata)))
     (fst (aggregate_queue encode event qdata))
  /\ forall v, In (k, v) (entries content) ->
               v = Str (inherited_prefix k ++ payloads k qdata).
Proof.
  intros Hk Hm content.
  assert (Hl : lookup k content
               = Some (Str (inherited_prefix k ++ payloads k qdata))).
  { unfold content. rewrite content_lookup by exact Hk. now rewrite Hm. }
  split.
  - rewrite aggregate_queue_eq. simpl. apply in_map_iff.
    exists (k, Str (inherited_prefix k ++ payloads k qdata)). split.
    + reflexivity.
    + apply (proj2 (In_entries _ _)). now apply lookup_In.
  - intros v Hv. apply (proj1 (In_entries _ _)) in Hv.
    apply In_lookup in Hv; [|apply content_NoDup; constructor].
    fold content in Hv. rewrite Hl in Hv. now injection Hv as <-.
Qed.

(** A process that sent nothing, and the name [__proto__], have no entry. *)
Lemma no_entry (qdata : list QData) (k : string) (v : value) :
  k = "__proto__" \/ mentions k qdata = false ->
  ~ In (k, v) (entries (fold_left add_fragment qdata empty)).
Proof.
  intros Hk Hin. apply (proj1 (In_entries _ _)) in Hin.
  apply In_lookup in Hin; [|apply content_NoDup; constructor].
  destruct (String.eqb_spec k "__proto__") as [->|Hne].
  - rewrite content_no_proto in Hin. discriminate.
  - destruct Hk as [|Hm]; [contradiction|].
    rewrite content_lookup, Hm in Hin by exact Hne. discriminate.
Qed.

Lemma logs_of_all_cons (event : Target) (qdata : list QData) (qs : Queues) :
  logs_of_all encode ((event, qdata) :: qs) =
  (if enumerable event then fst (aggregate_queue encode event qdata) else [])
  ++ logs_of_all encode qs.
Proof.
  unfold logs_of_all, own_queues. cbn [filter fst].
  now destruct (enumerable event).
Qed.

Lemma aggregate_from_eq (qs : Queues) :
  forall logs,
    aggregate_from encode logs qs = (logs ++ logs_of_all encode qs, emptied qs).
Proof.
  induction qs as [|[event qdata] qs IH]; intros logs.
  - simpl. now rewrite app_nil_r.
  - rewrite logs_of_all_cons. cbn [aggregate_from emptied map fst].
    destruct (enumerable event).
    + rewrite aggregate_queue_eq, IH. cbn [fst]. now rewrite <- app_assoc.
    + now rewrite IH.
Qed.

(** [aggregateLogs] returns the entries of every category and leaves every
    queue empty. *)
Lemma aggregateLogs_eq (qs : Queues) :
  aggregateLogs encode qs = (logs_of_all encode qs, emptied qs).
Proof. unfold aggregateLogs. now rewrite aggregate_from_eq. Qed.


Lemma logs_of_all_empty (qs : Queues) :
  all_empty qs -> logs_of_all encode qs = [].
Proof.
  induction qs as [|[event qdata] qs IH]; intros He; [reflexivity|].
  rewrite logs_of_all_cons.
  rewrite (He event qdata) by now left.
  rewrite IH; [now destruct (enumerable event)|].
  intros ev q Hin. apply (He ev q). now right.
Qed.


Lemma emptied_emptied (qs : Queues) : emptied (emptied qs) = emptied qs.
Proof.
  induction qs as [|[event qdata] qs IH]; [reflexivity|].
  cbn [emptied map fst]. fold (emptied qs). fold (emptied (emptied qs)).
  rewrite IH. destruct (enumerable event) eqn:E; cbn [fst]; now rewrite E.
Qed.

Lemma emptied_of_empty (qs : Queues) :
  all_empty qs -> emptied qs = qs.
Proof.
  induction qs as [|[event qdata] qs IH]; intros He; [reflexivity|].
  cbn [emptied map fst]. fold (emptied qs).
  rewrite (He event qdata) by now left.
  rewrite IH; [now destruct (enumerable event)|].
  intros ev q Hin. apply (He ev q). now right.
Qed.

End AggregationFacts.

(** ** Queues *)

Lemma push_middle (l1 l2 : Queues) (ev : Target) (q : list QData) (d : QData) :
  ~ In ev (map fst l1) ->
  push (l1 ++ (ev, q) :: l2) ev d = Some (l1 ++ (ev, q ++ [d]) :: l2).
Proof.
  induction l1 as [|[e q1] l1 IH]; simpl; intros Hnotin.
  - now rewrite String.eqb_refl.
  - destruct (String.eqb_spec e ev) as [->|Hne]; [tauto|].
    rewrite IH by tauto. reflexivity.
Qed.

Lemma queue_split (qs : Queues) (ev : Target) :
  In ev (map fst qs) ->
  exists l1 q l2,
    qs = l1 ++ (ev, q) :: l2 /\ ~ In ev (map fst l1).
Proof.
  induction qs as [|[e q0] qs IH]; simpl; [contradiction|].
  intros Hin. destruct (String.eqb_spec e ev) as [->|Hne].
  - exists [], q0, qs. simpl. tauto.
  - destruct IH as [l1 [q [l2 [-> Hnot]]]]; [tauto|].
    exists ((e, q0) :: l1), q, l2. simpl. tauto.
Qed.

Lemma lookup_middle (l1 l2 : Queues) (ev ev' : Target) (q : list QData) :
  ~ In ev (map fst l1) ->
  lookup ev' (l1 ++ (ev, q) :: l2) =
  if String.eqb ev ev' then Some q else lookup ev' (l1 ++ (ev, []) :: l2).
Proof.
  induction l1 as [|[e q1] l1 IH]; simpl; intros Hnotin.
  - destruct (String.eqb ev ev'); reflexivity.
  - destruct (String.eqb_spec e ev') as [->|Hne].
    + destruct (String.eqb_spec ev ev') as [->|]; [tauto | reflexivity].
    + apply IH. tauto.
Qed.

(** [push] appends to the queue of the category and touches no other. *)
Lemma push_lookup (qs qs' : Queues) (ev ev' : Target) (d : QData) :
  push qs ev d = Some qs' ->
  map fst qs' = map fst qs /\
  lookup ev' qs' =
  if String.eqb ev ev' then option_map (fun q => q ++ [d]) (lookup ev' qs)
  else lookup ev' qs.
Proof.
  revert qs'. induction qs as [|[e q] qs IH]; simpl; intros qs'; [discriminate|].
  destruct (String.eqb_spec e ev) as [->|Hne].
  - intros [= <-]. simpl. split; [reflexivity|].
    destruct (String.eqb ev ev'); reflexivity.
  - destruct (push qs ev d) as [qs0|] eqn:E; simpl; [|discriminate].
    intros [= <-]. simpl. destruct (IH qs0 eq_refl) as [Hk Hl].
    split; [now rewrite Hk|].
    destruct (String.eqb_spec e ev') as [->|Hne'].
    + destruct (String.eqb_spec ev ev'); [congruence | reflexivity].
    + exact Hl.
Qed.

Lemma push_defined (qs : Queues) (ev : Target) (d : QData) :
  In ev (map fst qs) -> exists qs', push qs ev d = Some qs'.
Proof.
  intros Hin. destruct (queue_split qs ev Hin) as [l1 [q [l2 [-> Hnot]]]].
  rewrite push_middle by exact Hnot. eauto.
Qed.

Lemma lookup_emptied (qs : Queues) (ev : Target) :
  lookup ev (emptied qs) =
  if enumerable ev
  then if array_includes (map fst qs) ev then Some [] else None
  else lookup ev qs.
Proof.
  induction qs as [|[e q] qs IH]; simpl.
  - now destruct (enumerable ev).
  - destruct (enumerable e) eqn:E; cbn [fst lookup];
      destruct (String.eqb_spec e ev) as [->|Hne]; simpl;
      rewrite ?E; try reflexivity; exact IH.
Qed.

Lemma keys_emptied (qs : Queues) : map fst (emptied qs) = map fst qs.
Proof.
  unfold emptied. rewrite map_map. apply map_ext.
  intros [e q]. cbn [fst]. now destruct (enumerable e).
Qed.

(** After [push_all], each queue holds what it held, then its share of the
    pushed fragments in order. *)
Lemma push_all_lookup (ds : list QData) :
  forall (qs qs' : Queues) (ev : Target),
    push_all qs ds = Some qs' ->
    lookup ev qs' =
    option_map (fun q => q ++ of_category ev ds) (lookup ev qs).
Proof.
  induction ds as [|d ds IH]; simpl; intros qs qs' ev.
  - intros [= <-]. destruct (lookup ev qs); simpl; [now rewrite app_nil_r | reflexivity].
  - destruct (push qs (q_event d) d) as [qs1|] eqn:E; [|discriminate].
    intros H. rewrite (IH _ _ ev H).
    destruct (push_lookup _ _ _ ev _ E) as [_ ->].
    destruct (String.eqb (q_event d) ev); [|reflexivity].
    destruct (lookup ev qs); simpl; [now rewrite <- app_assoc | reflexivity].
Qed.

(** [push_all] succeeds when every fragment names an existing queue. *)
Lemma push_all_defined (ds : list QData) :
  forall qs : Queues,
    (forall d, In d ds -> In (q_event d) (map fst qs)) ->
    exists qs', push_all qs ds = Some qs'.
Proof.
  induction ds as [|d ds IH]; simpl; intros qs Hds; [eauto|].
  destruct (push_defined qs (q_event d) d) as [qs1 E]; [now apply Hds; left|].
  rewrite E. apply IH. intros d' Hd'.
  destruct (push_lookup _ _ _ (q_event d') _ E) as [-> _].
  apply Hds. now right.
Qed.

Lemma rendered_app (es es' : list Effect) :
  rendered (es ++ es') = rendered es ++ rendered es'.
Proof.
  induction es as [|e es IH]; simpl; [reflexivity|].
  destruct e; simpl; now rewrite IH.
Qed.

Lemma send_calls_app (es es' : list Effect) :
  send_calls (es ++ es') = send_calls es ++ send_calls es'.
Proof.
  induction es as [|e es IH]; simpl; [reflexivity|].
  destruct e; simpl; now rewrite IH.
Qed.

(** ** [sendMail], [handleEvent] and the event loop *)

Section PipelineFacts.

Variable encode : string -> string.
Variable template : list Log -> string.
Variable mjml2html : string -> Mjml.
Variable config : Config.

Local Abbreviation sendMail' := (sendMail encode template mjml2html config).
Local Abbreviation handleEvent' := (handleEvent encode template mjml2html config).
Local Abbreviation step' := (step encode template mjml2html config).
Local Abbreviation run' := (run encode template mjml2html config).
Local Abbreviation render_of qs :=
  (mjml2html (template (logs_of_all encode qs))).

Lemma sendMail_unfold (s : State) (eventName : Target) :
  sendMail' s eventName =
  match errors (render_of (queues s)) with
  | [] =>
      mkState (emptied (queues s)) (mailTimeout s) (timers s) (next_handle s)
        (S (in_flight s))
        (effects s ++ [Rendered (logs_of_all encode (queues s));
                       SendMailCall (subject_of config eventName)
                         (html (render_of (queues s)))])
  | _ :: _ =>
      mkState (emptied (queues s)) None (timers s) (next_handle s)
        (in_flight s)
        (effects s ++ [Rendered (logs_of_all encode (queues s));
                       ConsoleError "Error sending mail:"])
  end.
Proof.
  unfold sendMail. now rewrite aggregateLogs_eq.
Qed.

Lemma sendMail_queues (s : State) (eventName : Target) :
  queues (sendMail' s eventName) = emptied (queues s).
Proof.
  rewrite sendMail_unfold. now destruct (errors (render_of (queues s))).
Qed.

(** A dispatch cancels no timer and arms none. *)
Lemma sendMail_timers (s : State) (eventName : Target) :
  timers (sendMail' s eventName) = timers s /\
  next_handle (sendMail' s eventName) = next_handle s.
Proof.
  rewrite sendMail_unfold. now destruct (errors (render_of (queues s))).
Qed.

Lemma sendMail_rendered (s : State) (eventName : Target) :
  rendered (effects (sendMail' s eventName)) =
  rendered (effects s) ++ [logs_of_all encode (queues s)].
Proof.
  rewrite sendMail_unfold.
  destruct (errors (render_of (queues s))); simpl; now rewrite rendered_app.
Qed.

Lemma logs_of_all_covers (qs : Queues) (ev : Target) (q : list QData)
      (entry : Log) :
  In (ev, q) qs ->
  enumerable ev = true ->
  In entry (fst (aggregate_queue encode ev q)) ->
  In entry (logs_of_all encode qs).
Proof.
  intros Hq Hev He. unfold logs_of_all. apply in_flat_map.
  exists (ev, q). split; [|exact He].
  unfold own_queues. apply filter_In. now split.
Qed.

Lemma existsb_handle (h : nat) (l : list nat) :
  existsb (Nat.eqb h) l = true <-> In h l.
Proof.
  rewrite existsb_exists. split.
  - intros [x [Hx E]]. apply Nat.eqb_eq in E. now subst.
  - intros H. exists h. now rewrite Nat.eqb_refl.
Qed.

(** C6.  When MJML reports errors the dispatch makes no call to
    [transporter.sendMail]; and once a dispatch is over, with the mail
    delivered, the send failed or the rendering failed, [mailTimeout] is
    [null], so the next accepted error event arms a fresh timer. *)
Theorem render_error_sends_nothing_and_slot_is_released
        (s : State) (eventName : Target) (delivered : bool) :
  let s' := sendMail' s eventName in
  let over := match errors (render_of (queues s)) with
              | [] => sendMail_resume s' delivered
              | _ :: _ => s'
              end in
  (errors (render_of (queues s)) <> [] ->
     send_calls (effects over) = send_calls (effects s) /\
     in_flight over = in_flight s) /\
  mailTimeout over = None /\
  (forall packet watched,
      lookup "log:err" (target config) = Some watched ->
      array_includes watched (process_name packet) = true ->
      In "log:err" (map fst (queues s)) ->
      exists s1,
        handleEvent' over "log:err" packet = Some s1 /\
        mailTimeout s1 = Some (next_handle over) /\
        timers s1 = timers over ++ [next_handle over]).
Proof.
  intros s' over.
  assert (Hslot : mailTimeout over = None).
  { unfold over, s'. rewrite sendMail_unfold.
    now destruct (errors (render_of (queues s))). }
  assert (Hq : map fst (queues over) = map fst (queues s)).
  { unfold over, s'. rewrite sendMail_unfold.
    destruct (errors (render_of (queues s))); simpl; apply keys_emptied. }
  split; [|split; [exact Hslot|]].
  - intros Herr. unfold over, s'. rewrite sendMail_unfold.
    destruct (errors (render_of (queues s))); [congruence|]. simpl.
    rewrite send_calls_app. simpl. now rewrite app_nil_r.
  - intros packet watched Hw Hacc Hkey.
    destruct (push_defined (queues over) "log:err"
                (mkQData "log:err" (process_name packet) (data packet)))
      as [qs Hpush]; [now rewrite Hq|].
    exists (arm_timer (with_queues over qs)).
    unfold handleEvent. rewrite Hw, Hacc, Hpush. simpl.
    rewrite Hslot. auto.
Qed.

(** C8.  An event whose process is not on the watch-list of its category
    leaves the whole state as it was: no queue changes, no timer is armed,
    no dispatch starts. *)
Theorem unwatched_process_is_ignored
        (s : State) (event : Target) (packet : Packet)
        (watched : list string) :
  lookup event (target config) = Some watched ->
  array_includes watched (process_name packet) = false ->
  handleEvent' s event packet = Some s /\
  step' s (Emit event packet) = Some s.
Proof.
  intros Hw Hno.
  assert (H : handleEvent' s event packet = Some s).
  { unfold handleEvent. now rewrite Hw, Hno. }
  split; [exact H|]. simpl.
  now destruct (array_includes (eventTypes config) event).
Qed.

(** C10.  A dispatch that finds every queue empty still renders, with an
    empty list of logs, and hands the result to [transporter.sendMail]
    (MJML reporting no error); a timer that is armed fires into such a
    dispatch, since no dispatch cancels a timer. *)
Theorem empty_aggregation_is_still_sent (s : State) (eventName : Target) :
  all_empty (queues s) ->
  rendered (effects (sendMail' s eventName)) = rendered (effects s) ++ [[]] /\
  timers (sendMail' s eventName) = timers s /\
  (errors (mjml2html (template [])) = [] ->
   effects (sendMail' s eventName) =
     effects s ++ [Rendered [];
                   SendMailCall (subject_of config eventName)
                     (html (mjml2html (template [])))] /\
   forall h,
     In h (timers s) ->
     exists s',
       step' s (TimerFires h) = Some s' /\
       effects s' =
         effects s ++ [Rendered [];
                       SendMailCall (subject_of config "log:err")
                         (html (mjml2html (template [])))]).
Proof.
  intros Hempty.
  split; [rewrite sendMail_rendered; now rewrite logs_of_all_empty|].
  split; [apply sendMail_timers|].
  intros Hok.
  assert (Hs : forall s0 ev, all_empty (queues s0) ->
               effects (sendMail' s0 ev) =
               effects s0 ++ [Rendered [];
                  SendMailCall (subject_of config ev)
                    (html (mjml2html (template [])))]).
  { intros s0 ev H0. rewrite sendMail_unfold.
    rewrite (logs_of_all_empty encode _ H0), Hok. reflexivity. }
  split; [now apply Hs|].
  intros h Hh. exists (sendMail' (disarm s h) "log:err"). split.
  - simpl. apply existsb_handle in Hh. now rewrite Hh.
  - now rewrite Hs.
Qed.

End PipelineFacts.

(** ** Every subscribed event has its queue *)

Section QueuesReady.

Variable encode : string -> string.
Variable template : list Log -> string.
Variable mjml2html : string -> Mjml.
Variable config : Config.

Lemma initial_queues_from (evs : list Target) :
  forall acc : Queues,
    all_empty acc ->
    let qs := fold_left (fun qs ev => match lookup ev qs with
                                      | Some _ => qs
                                      | None => qs ++ [(ev, [])]
                                      end) evs acc in
    all_empty qs /\
    forall ev, In ev (map fst qs) <-> In ev (map fst acc) \/ In ev evs.
Proof.
  induction evs as [|e evs IH]; intros acc Hacc; simpl.
  - split; [exact Hacc | tauto].
  - destruct (lookup e acc) as [q|] eqn:E.
    + destruct (IH acc Hacc) as [H1 H2]. split; [exact H1|].
      intros ev. rewrite H2.
      assert (In e (map fst acc)) by (apply lookup_keys; congruence).
      intuition (subst; auto).
    + destruct (IH (acc ++ [(e, [])])) as [H1 H2].
      * intros ev q Hin. apply in_app_or in Hin as [Hin|[[= _ <-]|[]]];
          [now apply (Hacc ev q) | reflexivity].
      * split; [exact H1|]. intros ev. rewrite H2, map_app, in_app_iff.
        simpl. tauto.
Qed.

(** The initial state has an empty queue for every key of [config.target]. *)
Lemma initial_queues_ready :
  all_empty (initial_queues config) /\
  forall ev, In ev (map fst (initial_queues config)) <-> In ev (eventTypes config).
Proof.
  destruct (initial_queues_from (eventTypes config) []) as [H1 H2].
  - intros ev q [].
  - split; [exact H1|]. intros ev. unfold initial_queues. rewrite H2.
    simpl. tauto.
Qed.

(** [handleEvent] raises no [TypeError] on a subscribed event whose queue
    exists, and it keeps the set of queues. *)
Lemma handleEvent_defined (s : State) (event : Target) (packet : Packet) :
  In event (eventTypes config) ->
  In event (map fst (queues s)) ->
  exists s',
    handleEvent encode template mjml2html config s event packet = Some s' /\
    map fst (queues s') = map fst (queues s).
Proof.
  intros Hev Hq. unfold handleEvent.
  destruct (lookup event (target config)) as [watched|] eqn:Hw;
    [|now apply lookup_keys in Hev].
  destruct (negb (array_includes watched (process_name packet))); [eauto|].
  destruct (push_defined (queues s) event
              (mkQData event (process_name packet) (data packet)) Hq)
    as [qs Hpush].
  rewrite Hpush.
  destruct (push_lookup _ _ _ event _ Hpush) as [Hk _].
  destruct (String.eqb event "log:err").
  - destruct (mailTimeout (with_queues s qs)); eexists; split;
      try reflexivity; exact Hk.
  - destruct (includes (data packet) "BROADCST:EMAIL"); eexists; split;
      try reflexivity; [|exact Hk].
    rewrite sendMail_queues, keys_emptied. exact Hk.
Qed.

End QueuesReady.

(** ** Process names that are not properties of [Object.prototype] *)

Section OrdinaryNames.
Import JsObject JsObjectFacts.

Variable encode : string -> string.

Lemma ordinary_not_proto (k : string) :
  object_prototype k = Undefined -> k <> "__proto__".
Proof. intros H ->. discriminate H. Qed.

Lemma ordinary_prefix (k : string) :
  object_prototype k = Undefined -> inherited_prefix k = EmptyString.
Proof. unfold inherited_prefix. now intros ->. Qed.

(** For such a name the entry of a category is the escape of the payloads
    concatenated in arrival order, under the label [name event]. *)
Lemma ordinary_name_entry (event : Target) (qdata : list QData) (k : string) :
  object_prototype k = Undefined ->
  mentions k qdata = true ->
  In (mkLog (k ++ " " ++ event) (encode (payloads k qdata)))
     (fst (aggregate_queue encode event qdata))
  /\ forall v, In (k, v) (entries (fold_left add_fragment qdata empty)) ->
               v = Str (payloads k qdata).
Proof.
  intros Hk Hm.
  destruct (aggregated_entry encode event qdata k
              (ordinary_not_proto k Hk) Hm) as [H1 H2].
  rewrite (ordinary_prefix k Hk) in H1, H2. simpl in H1, H2. now split.
Qed.

Lemma entries_singleton (kv : string * value) : entries [kv] = [kv].
Proof.
  unfold entries. simpl. now destruct (is_index kv).
Qed.

Lemma aggregate_pair (event : Target) (k a b : string) :
  object_prototype k = Undefined ->
  fst (aggregate_queue encode event
         [mkQData event k a; mkQData event k b])
  = [mkLog (k ++ " " ++ event) (encode (a ++ b))].
Proof.
  intros Hk. rewrite aggregate_queue_eq. cbn [fst fold_left].
  rewrite !add_fragment_eq. cbn [q_name q_message].
  destruct (String.eqb_spec k "__proto__") as [E|_];
    [now apply ordinary_not_proto in Hk|].
  unfold empty. cbn [update].
  rewrite (get_inherited [] k eq_refl), Hk. cbn [or_empty truthy to_string].
  cbn [update]. rewrite String.eqb_refl.
  assert (Hg : get [(k, Str (EmptyString ++ a))] k = Str (EmptyString ++ a)).
  { apply get_own. simpl. now rewrite String.eqb_refl. }
  rewrite Hg, to_string_or_empty_Str, entries_singleton. reflexivity.
Qed.

End OrdinaryNames.

(** ** The debounce discipline, and two error events in one window *)

Section Debounce.

Variable encode : string -> string.
Variable template : list Log -> string.
Variable mjml2html : string -> Mjml.
Variable config : Config.

Local Abbreviation sendMail' := (sendMail encode template mjml2html config).
Local Abbreviation handleEvent' := (handleEvent encode template mjml2html config).
Local Abbreviation step' := (step encode template mjml2html config).
Local Abbreviation run' := (run encode template mjml2html config).

Lemma debounced_initial : debounced (initial_state config).
Proof. split; simpl; auto. Qed.

Lemma remove_handle_singleton (h : nat) : remove_handle h [h] = [].
Proof. unfold remove_handle. simpl. now rewrite Nat.eqb_refl. Qed.

(** As long as no dispatch is started by a broadcast event, every step
    keeps the discipline. *)
Lemma debounced_step (s s' : State) (x : Stimulus) :
  debounced s ->
  is_broadcast x = false ->
  step' s x = Some s' ->
  debounced s'.
Proof.
  intros [Hle Hnone] Hx Hstep. destruct x as [event packet|h|delivered]; simpl in *.
  - destruct (array_includes (eventTypes config) event);
      [|injection Hstep as <-; now split].
    unfold handleEvent in Hstep.
    destruct (lookup event (target config)) as [watched|]; [|discriminate].
    destruct (negb (array_includes watched (process_name packet)));
      [injection Hstep as <-; now split|].
    destruct (push (queues s) event _) as [qs|]; [|discriminate].
    destruct (String.eqb event "log:err"); simpl in *.
    + destruct (mailTimeout s) eqn:Hm.
      * injection Hstep as <-. split; simpl; [exact Hle | congruence].
      * injection Hstep as <-. destruct (Hnone eq_refl) as [Ht Hf].
        split; simpl; [|discriminate].
        rewrite Ht, Hf. simpl. lia.
    + rewrite Hx in Hstep. injection Hstep as <-. now split.
  - destruct (existsb (Nat.eqb h) (timers s)) eqn:Hh; [|discriminate].
    apply existsb_handle in Hh.
    destruct (timers s) as [|h0 [|h1 l]] eqn:Ht; simpl in *;
      [contradiction| |lia].
    destruct Hh as [->|[]].
    assert (Hf : in_flight s = 0) by lia.
    assert (Hm : mailTimeout s <> None)
      by (intros E; now destruct (Hnone E)).
    injection Hstep as <-. rewrite sendMail_unfold.
    unfold disarm. rewrite Ht, remove_handle_singleton. simpl.
    destruct (errors _); split; simpl; auto; try lia; try tauto.
  - destruct (in_flight s) as [|n] eqn:Hf; [discriminate|].
    injection Hstep as <-.
    assert (Ht : timers s = [])
      by (destruct (timers s); simpl in *; [reflexivity | lia]).
    assert (n = 0) as -> by (rewrite Ht in Hle; simpl in Hle; lia).
    unfold debounced, sendMail_resume. simpl. rewrite Ht, Hf. simpl.
    split; [lia | auto].
Qed.

Lemma debounced_run (xs : list Stimulus) :
  forall s s',
    debounced s ->
    forallb (fun x => negb (is_broadcast x)) xs = true ->
    run' s xs = Some s' ->
    debounced s'.
Proof.
  induction xs as [|x xs IH]; simpl; intros s s' Hd Hq Hrun.
  - now injection Hrun as <-.
  - apply andb_true_iff in Hq as [Hx Hxs].
    destruct (step' s x) as [s1|] eqn:E; [|discriminate].
    apply (IH s1 s'); [|exact Hxs | exact Hrun].
    apply (debounced_step s s1 x Hd); [|exact E].
    now destruct (is_broadcast x).
Qed.

Lemma logs_of_all_app (l1 l2 : Queues) :
  logs_of_all encode (l1 ++ l2) = logs_of_all encode l1 ++ logs_of_all encode l2.
Proof.
  unfold logs_of_all, own_queues. rewrite filter_app. apply flat_map_app.
Qed.

(** Two accepted error events of one process in one window: the second arms
    no timer, the one timer fires into one dispatch, and for a process name
    that is not a property of [Object.prototype] the rendered logs are the
    single entry with the escape of the two payloads concatenated. *)
Lemma rapid_errors_collapse (s : State) (name a b : string)
      (watched : list string) :
  lookup "log:err" (target config) = Some watched ->
  array_includes watched name = true ->
  JsObject.object_prototype name = JsObject.Undefined ->
  mailTimeout s = None ->
  all_empty (queues s) ->
  In "log:err" (map fst (queues s)) ->
  exists s2 s3,
    run' s [Emit "log:err" (mkPacket name a);
            Emit "log:err" (mkPacket name b)] = Some s2 /\
    timers s2 = timers s ++ [next_handle s] /\
    step' s2 (TimerFires (next_handle s)) = Some s3 /\
    rendered (effects s3) =
      rendered (effects s)
      ++ [[mkLog (name ++ " log:err") (encode (a ++ b))]].
Proof.
  intros Hw Hacc Hord Hslot Hempty Hkey.
  assert (Hsub : array_includes (eventTypes config) "log:err" = true).
  { apply array_includes_In. apply lookup_keys. congruence. }
  destruct (queue_split _ _ Hkey) as [l1 [q [l2 [Hqs Hnot]]]].
  assert (q = []) as -> by (apply (Hempty "log:err"); rewrite Hqs;
                            apply in_elt).
  set (A := mkQData "log:err" name a). set (B := mkQData "log:err" name b).
  set (s1 := arm_timer (with_queues s (l1 ++ ("log:err", [A]) :: l2))).
  set (s2 := with_queues s1 (l1 ++ ("log:err", [A; B]) :: l2)).
  assert (H1 : handleEvent' s "log:err" (mkPacket name a) = Some s1).
  { unfold handleEvent. rewrite Hw. simpl. rewrite Hacc. simpl.
    rewrite Hqs, (push_middle l1 l2 "log:err" [] _ Hnot). simpl.
    now rewrite Hslot. }
  assert (H2 : handleEvent' s1 "log:err" (mkPacket name b) = Some s2).
  { unfold handleEvent. rewrite Hw. simpl. rewrite Hacc. simpl.
    now rewrite (push_middle l1 l2 "log:err" [A] _ Hnot). }
  exists s2, (sendMail' (disarm s2 (next_handle s)) "log:err").
  split; [|split; [reflexivity|split]].
  - cbn [run step]. rewrite Hsub, H1. now rewrite H2.
  - cbn [step].
    assert (Hin : existsb (Nat.eqb (next_handle s)) (timers s2) = true).
    { apply existsb_handle. simpl. apply in_or_app. right. now left. }
    now rewrite Hin.
  - rewrite sendMail_rendered. simpl. f_equal. f_equal.
    rewrite logs_of_all_app.
    change (logs_of_all encode (("log:err", [A; B]) :: l2)) with
      (fst (aggregate_queue encode "log:err" [A; B]) ++ logs_of_all encode l2).
    rewrite (logs_of_all_empty encode l1), (logs_of_all_empty encode l2).
    + unfold A, B. rewrite aggregate_pair by exact Hord. reflexivity.
    + intros ev q Hin. apply (Hempty ev q). rewrite Hqs.
      apply in_or_app. right. now right.
    + intros ev q Hin. apply (Hempty ev q). rewrite Hqs.
      apply in_or_app. now left.
Qed.

End Debounce.

(** ** Where the program departs from the debounce discipline *)

Section BroadcastAndTimer.

Variable encode : string -> string.
Variable template : list Log -> string.
Variable mjml2html : string -> Mjml.

Local Abbreviation sendMail' :=
  (sendMail encode template mjml2html sample_config).
Local Abbreviation step' := (step encode template mjml2html sample_config).
Local Abbreviation run' := (run encode template mjml2html sample_config).

Lemma run_app (xs ys : list Stimulus) :
  forall s,
    run' s (xs ++ ys) =
    match run' s xs with Some s' => run' s' ys | None => None end.
Proof.
  induction xs as [|x xs IH]; intros s; simpl; [reflexivity|].
  destruct (step' s x); [apply IH | reflexivity].
Qed.

Lemma error_then_broadcast :
  run' (initial_state sample_config) [Emit "log:err" (svc "A")]
    = Some one_error_pending /\
  step' one_error_pending (Emit "log:out" (svc "BROADCST:EMAIL"))
    = Some (sendMail' broadcast_pushed "log:out").
Proof. split; reflexivity. Qed.

(** Once the dispatch started by the broadcast is over, [mailTimeout] is
    [null] although timer [0] has not fired. *)
Lemma broadcast_dispatch_over :
  exists s,
    run' (sendMail' broadcast_pushed "log:out")
         (settle_all (sendMail' broadcast_pushed "log:out")) = Some s /\
    mailTimeout s = None /\ timers s = [0] /\ next_handle s = 1 /\
    queues s = [("log:err", []); ("log:out", [])].
Proof.
  rewrite sendMail_unfold.
  destruct (errors _); eexists; (split; [reflexivity|]); simpl; auto.
Qed.

End BroadcastAndTimer.

(** C1.  A run on which two debounce timers are outstanding at once.  With
    [svc] watched for [log:err] and [log:out]: an error event arms timer 0; a
    broadcast event on [log:out] starts a dispatch, which ends by setting
    [mailTimeout] to [null] while timer 0 is still to fire; the next error
    event then arms timer 1. *)
Theorem second_timer_armed_after_broadcast
        (encode : string -> string) (template : list Log -> string)
        (mjml2html : string -> Mjml) :
  let run' := run encode template mjml2html sample_config in
  exists s1 s2,
    run' (initial_state sample_config)
         [Emit "log:err" (svc "A"); Emit "log:out" (svc "BROADCST:EMAIL")]
      = Some s1 /\
    timers s1 = [0] /\
    run' s1 (settle_all s1 ++ [Emit "log:err" (svc "B")]) = Some s2 /\
    timers s2 = [0; 1] /\
    ~ debounced s2.
Proof.
  intros run'.
  destruct (broadcast_dispatch_over encode template mjml2html)
    as [s [Hrun [Hslot [Ht [Hn Hq]]]]].
  exists (sendMail encode template mjml2html sample_config
            broadcast_pushed "log:out").
  exists (arm_timer
            (with_queues s [("log:err", [mkQData "log:err" "svc" "B"]);
                            ("log:out", [])])).
  split; [reflexivity|].
  split; [apply sendMail_timers|].
  split; [|split].
  - unfold run'. rewrite run_app, Hrun.
    cbn [run step]. unfold handleEvent. simpl. now rewrite Hq, Hslot.
  - simpl. now rewrite Ht, Hn.
  - unfold debounced. simpl. rewrite Ht. simpl. lia.
Qed.

(** C2.  A broadcast dispatch that starts while timer 0 is pending: before
    it [mailTimeout] holds handle 0, after it [mailTimeout] is [null], and
    timer 0 is still armed. *)
Theorem broadcast_dispatch_clears_pending_slot
        (encode : string -> string) (template : list Log -> string)
        (mjml2html : string -> Mjml) :
  let step' := step encode template mjml2html sample_config in
  let run' := run encode template mjml2html sample_config in
  mailTimeout one_error_pending = Some 0 /\
  exists s1 s2,
    step' one_error_pending (Emit "log:out" (svc "BROADCST:EMAIL")) = Some s1 /\
    run' s1 (settle_all s1) = Some s2 /\
    mailTimeout s2 = None /\
    timers s2 = [0].
Proof.
  intros step' run'. split; [reflexivity|].
  exists (sendMail encode template mjml2html sample_config
            broadcast_pushed "log:out").
  destruct (broadcast_dispatch_over encode template mjml2html)
    as [s2 [Hrun [Hslot [Ht _]]]].
  exists s2. repeat split; assumption || reflexivity.
Qed.

(** ** Process names that [content] inherits from [Object.prototype] *)

(** C3.  For the process name [constructor] the first read of
    [content[data.name]] finds the inherited function [Object], so the
    message of the entry is the escape of the text of that function followed
    by the payloads, not the escape of the payloads alone; fragments of a
    process named [__proto__] leave no entry at all. *)
Theorem inherited_name_corrupts_aggregated_message :
  (forall encode : string -> string,
      aggregateLogs encode
        [("log:err", [mkQData "log:err" "constructor" "A";
                      mkQData "log:err" "constructor" "B"])]
      = ([mkLog "constructor log:err"
                (encode "function Object() { [native code] }AB")],
         [("log:err", [])])) /\
  (forall encode : string -> string,
      aggregateLogs encode
        [("log:err", [mkQData "log:err" "__proto__" "A"])]
      = ([], [("log:err", [])])) /\
  payloads "constructor"
    [mkQData "log:err" "constructor" "A"; mkQData "log:err" "constructor" "B"]
    = "AB" /\
  fst (aggregateLogs sample_encode
         [("log:err", [mkQData "log:err" "constructor" "A";
                       mkQData "log:err" "constructor" "B"])])
    <> [mkLog "constructor log:err" (sample_encode "AB")].
Proof.
  split; [intros encode; reflexivity|].
  split; [intros encode; reflexivity|].
  split; [reflexivity|].
  vm_compute. discriminate.
Qed.

(** C4.  Two error events of the watched process [constructor] before the
    timer fires: one timer, one dispatch, and the entry of that dispatch
    carries the text of the inherited function before the two payloads. *)
Theorem rapid_errors_of_inherited_name
        (encode : string -> string) (template : list Log -> string)
        (mjml2html : string -> Mjml) :
  let step' := step encode template mjml2html sample_config in
  let run' := run encode template mjml2html sample_config in
  exists s2 s3,
    run' (initial_state sample_config)
         [Emit "log:err" (mkPacket "constructor" "A");
          Emit "log:err" (mkPacket "constructor" "B")] = Some s2 /\
    timers s2 = [0] /\
    step' s2 (TimerFires 0) = Some s3 /\
    rendered (effects s3) =
      [[mkLog "constructor log:err"
              (encode "function Object() { [native code] }AB")]] /\
    timers s3 = [].
Proof.
  intros step' run'.
  eexists. eexists.
  split; [reflexivity|].
  split; [reflexivity|].
  split; [reflexivity|].
  split.
  - rewrite sendMail_rendered. reflexivity.
  - apply sendMail_timers.
Qed.

(** ** Start-up *)

Module StartupFacts.
Import Startup.

(** A failed SMTP verification ends the process with status 1, and nothing
    is subscribed. *)
Lemma smtp_failure_exits_1 (events : list Target) (connected launched : bool) :
  main events (mkWorld false connected launched)
    = ([PrintError "SMTP connection failed:"; Exit 1], Exited 1).
Proof. reflexivity. Qed.

Lemma for_each_subscribes (events : list Target) :
  subscriptions
    (for_each events (fun event =>
       act (Print ("[PM2] " ++ event ++ " streaming started")) ;;
       act (Subscribe event)))
  = map Subscribe events.
Proof.
  induction events as [|e events IH]; [reflexivity|].
  unfold subscriptions in *. simpl in *.
  destruct (for_each events _) as [done o]. simpl in *.
  destruct o; simpl in *; now rewrite IH.
Qed.

(** The subscriptions happen only when all three connections succeed. *)
Lemma subscriptions_need_every_connection (events : list Target) (w : World) :
  subscriptions (main events w) =
  if smtp_verified w && pm2_connected w && bus_launched w
  then map Subscribe events else [].
Proof.
  destruct w as [[|] [|] [|]]; try reflexivity.
  pose proof (for_each_subscribes events) as H.
  unfold subscriptions, main, main_body in *. simpl in *.
  destruct (for_each events _) as [done o]. simpl in *.
  destruct o; simpl in *; rewrite ?filter_app; simpl; rewrite ?app_nil_r;
    exact H.
Qed.

End StartupFacts.

(** C9.  When [pm2.connect] fails, or [pm2.launchBus] fails, the rejection
    reaches the final [catch]: the program prints [Fatal error:] and does not
    call [process.exit], so no exit status other than the default 0 is set;
    nothing is subscribed. *)
Theorem supervisor_failure_sets_no_exit_status
        (events : list Target) (launched : bool) :
  Startup.main events (Startup.mkWorld true false launched)
    = ([Startup.Print "SMTP server is ready to take messages";
        Startup.PrintError "Fatal error:"], Startup.Fulfilled tt) /\
  Startup.exit_status
    (Startup.main events (Startup.mkWorld true false launched)) = None /\
  Startup.main events (Startup.mkWorld true true false)
    = ([Startup.Print "SMTP server is ready to take messages";
        Startup.Print "[PM2] Log streaming connected";
        Startup.PrintError "Fatal error:"], Startup.Fulfilled tt) /\
  Startup.exit_status
    (Startup.main events (Startup.mkWorld true true false)) = None /\
  Startup.exit_status
    (Startup.main events (Startup.mkWorld false true true)) = Some 1.
Proof. repeat split; reflexivity. Qed.

(** ** The theorems at the sample configuration *)

Example sample_scenario :
  sample_run [Emit "log:err" (svc "A");
              Emit "log:out" (svc "BROADCST:EMAIL");
              SendSettles true] = Some drained_with_timer.
Proof. reflexivity. Qed.

Lemma render_error_sends_nothing_and_slot_is_released_witness :
  errors (failing_mjml
            (sample_template
               (logs_of_all sample_encode (queues one_error_pending)))) <> [] /\
  send_calls (effects failed_dispatch) = send_calls (effects one_error_pending) /\
  mailTimeout failed_dispatch = None /\
  exists s1,
    handleEvent sample_encode sample_template failing_mjml sample_config
      failed_dispatch "log:err" (svc "B") = Some s1 /\
    mailTimeout s1 = Some (next_handle failed_dispatch) /\
    timers s1 = timers failed_dispatch ++ [next_handle failed_dispatch].
Proof.
  destruct (render_error_sends_nothing_and_slot_is_released
              sample_encode sample_template failing_mjml sample_config
              one_error_pending "log:err" false)
    as (H1 & H2 & H3).
  split; [discriminate|].
  split; [apply H1; discriminate|].
  split; [exact H2|].
  apply (H3 (svc "B") ["svc"; "constructor"]);
    [reflexivity | reflexivity | simpl; auto].
Defined.

Lemma unwatched_process_is_ignored_witness :
  lookup "log:out" (target sample_config) = Some ["svc"] /\
  array_includes ["svc"] "other" = false /\
  step sample_encode sample_template sample_mjml sample_config
       one_error_pending (Emit "log:out" (mkPacket "other" "BROADCST:EMAIL"))
    = Some one_error_pending.
Proof.
  split; [reflexivity|]. split; [reflexivity|].
  apply (unwatched_process_is_ignored
           sample_encode sample_template sample_mjml sample_config
           one_error_pending "log:out" (mkPacket "other" "BROADCST:EMAIL")
           ["svc"]); reflexivity.
Defined.

Lemma empty_aggregation_is_still_sent_witness :
  all_empty (queues drained_with_timer) /\
  errors (sample_mjml (sample_template [])) = [] /\
  In 0 (timers drained_with_timer) /\
  exists s',
    step sample_encode sample_template sample_mjml sample_config
         drained_with_timer (TimerFires 0) = Some s' /\
    effects s' =
      effects drained_with_timer
      ++ [Rendered [];
          SendMailCall "log:err-pm2 notification" "<mjml></mjml>"].
Proof.
  assert (Hempty : all_empty (queues drained_with_timer)).
  { intros ev q [H|[H|[]]]; now inversion H. }
  destruct (empty_aggregation_is_still_sent
              sample_encode sample_template sample_mjml sample_config
              drained_with_timer "log:err" Hempty)
    as (_ & _ & H3).
  split; [exact Hempty|].
  split; [reflexivity|]. split; [simpl; auto|].
  destruct (H3 eq_refl) as [_ H4].
  apply (H4 0). simpl. auto.
Defined.

(** * Further properties of the code *)

(** ** The queues at start-up and along a run *)

Lemma initial_queues_fold (evs : list Target) :
  forall acc : Queues,
    NoDup evs ->
    (forall ev, In ev evs -> ~ In ev (map fst acc)) ->
    fold_left (fun qs ev => match lookup ev qs with
                            | Some _ => qs
                            | None => qs ++ [(ev, [])]
                            end) evs acc
    = acc ++ map (fun ev => (ev, @nil QData)) evs.
Proof.
  induction evs as [|e evs IH]; intros acc Hnd Hfresh; simpl.
  - now rewrite app_nil_r.
  - inversion Hnd as [|? ? Hnotin Hnd']; subst.
    destruct (lookup e acc) eqn:E.
    + exfalso. apply (Hfresh e); [now left|]. apply lookup_keys. congruence.
    + rewrite IH; [now rewrite <- app_assoc | exact Hnd'|].
      intros ev Hev. rewrite map_app, in_app_iff. simpl.
      intros [H|[->|[]]]; [|contradiction].
      apply (Hfresh ev); [now right | exact H].
Qed.

Section RunFacts.

Variable encode : string -> string.
Variable template : list Log -> string.
Variable mjml2html : string -> Mjml.
Variable config : Config.

Local Abbreviation sendMail' := (sendMail encode template mjml2html config).
Local Abbreviation handleEvent' :=
  (handleEvent encode template mjml2html config).
Local Abbreviation step' := (step encode template mjml2html config).
Local Abbreviation run' := (run encode template mjml2html config).

Lemma handleEvent_keys (s s' : State) (event : Target) (packet : Packet) :
  handleEvent' s event packet = Some s' ->
  map fst (queues s') = map fst (queues s).
Proof.
  unfold handleEvent.
  destruct (lookup event (target config)) as [watched|]; [|discriminate].
  destruct (negb (array_includes watched (process_name packet)));
    [now intros [= <-]|].
  destruct (push (queues s) event _) as [qs|] eqn:Hpush; [|discriminate].
  destruct (push_lookup _ _ _ event _ Hpush) as [Hk _].
  destruct (String.eqb event "log:err").
  - destruct (mailTimeout (with_queues s qs)); intros [= <-]; exact Hk.
  - destruct (includes (data packet) "BROADCST:EMAIL"); intros [= <-];
      [|exact Hk].
    rewrite sendMail_queues, keys_emptied. exact Hk.
Qed.

Lemma step_keys (s s' : State) (x : Stimulus) :
  step' s x = Some s' -> map fst (queues s') = map fst (queues s).
Proof.
  destruct x as [event packet|h|delivered]; simpl.
  - destruct (array_includes (eventTypes config) event);
      [apply handleEvent_keys | now intros [= <-]].
  - destruct (existsb (Nat.eqb h) (timers s)); [|discriminate].
    intros [= <-]. rewrite sendMail_queues. apply keys_emptied.
  - destruct (in_flight s); [discriminate | now intros [= <-]].
Qed.

Lemma run_keys (xs : list Stimulus) :
  forall s s',
    run' s xs = Some s' -> map fst (queues s') = map fst (queues s).
Proof.
  induction xs as [|x xs IH]; simpl; intros s s'.
  - now intros [= <-].
  - destruct (step' s x) as [s1|] eqn:E; [|discriminate].
    intros H. rewrite (IH _ _ H). exact (step_keys _ _ _ E).
Qed.

(** X2.  Whatever has happened since start-up, a bus event is handled
    without a [TypeError]: [config.target[event]] and [queues[event]] are
    defined for every event type the program subscribed to, because no step
    adds or removes a queue. *)
Theorem bus_event_never_throws
        (xs : list Stimulus) (s : State) (event : Target) (packet : Packet) :
  run' (initial_state config) xs = Some s ->
  map fst (queues s) = map fst (initial_queues config) /\
  exists s', step' s (Emit event packet) = Some s'.
Proof.
  intros Hrun. pose proof (run_keys _ _ _ Hrun) as Hk. simpl in Hk.
  split; [exact Hk|]. simpl.
  destruct (array_includes (eventTypes config) event) eqn:E; [|eauto].
  apply array_includes_In in E.
  destruct (handleEvent_defined encode template mjml2html config
              s event packet E) as [s' [H _]]; [|eauto].
  rewrite Hk. now apply initial_queues_ready.
Qed.

(** X3.  On every run from start-up on which no event outside [log:err]
    carries the broadcast marker, at most one timer is armed or one mail
    being sent at any time, and none while [mailTimeout] is [null]. *)
Theorem debounce_holds_without_broadcast (xs : list Stimulus) (s : State) :
  forallb (fun x => negb (is_broadcast x)) xs = true ->
  run' (initial_state config) xs = Some s ->
  length (timers s) + in_flight s <= 1 /\
  (mailTimeout s = None -> timers s = [] /\ in_flight s = 0).
Proof.
  intros Hq Hrun.
  exact (debounced_run encode template mjml2html config xs
           (initial_state config) s (debounced_initial config) Hq Hrun).
Qed.

End RunFacts.

Lemma bus_event_never_throws_witness :
  sample_run [Emit "log:err" (svc "A");
              Emit "log:out" (svc "BROADCST:EMAIL");
              SendSettles true] = Some drained_with_timer /\
  exists s',
    step sample_encode sample_template sample_mjml sample_config
         drained_with_timer (Emit "log:out" (svc "more")) = Some s'.
Proof.
  assert (Hrun : sample_run [Emit "log:err" (svc "A");
                             Emit "log:out" (svc "BROADCST:EMAIL");
                             SendSettles true] = Some drained_with_timer)
    by reflexivity.
  split; [exact Hrun|].
  exact (proj2 (bus_event_never_throws
                  sample_encode sample_template sample_mjml sample_config
                  _ drained_with_timer "log:out" (svc "more") Hrun)).
Defined.

Lemma debounce_holds_without_broadcast_witness :
  forallb (fun x => negb (is_broadcast x)) sample_errors = true /\
  exists s,
    sample_run sample_errors = Some s /\
    length (timers s) + in_flight s <= 1.
Proof.
  split; [reflexivity|].
  eexists. split; [reflexivity|].
  apply (debounce_holds_without_broadcast
           sample_encode sample_template sample_mjml sample_config
           sample_errors); reflexivity.
Defined.

(** ** What [handleEvent] does with an event *)

Lemma prefix_spec (a b : string) :
  String.prefix a b = true <-> exists post, b = (a ++ post)%string.
Proof.
  revert b. induction a as [|x a IH]; intros b.
  - split; [intros _; now exists b | intros _; now destruct b].
  - destruct b as [|y b]; simpl.
    + split; [discriminate | intros [post H]; discriminate H].
    + destruct (ascii_dec x y) as [->|Hne].
      * rewrite IH. split; intros [post H]; exists post; congruence.
      * split; [discriminate | intros [post H]; congruence].
Qed.

(** X4.  [includes] is containment at any position: the test
    [packet.data.includes('BROADCST:EMAIL')] holds exactly for the payloads
    that read [pre ++ 'BROADCST:EMAIL' ++ post]. *)
Theorem includes_is_containment (s needle : string) :
  includes s needle = true <->
  exists pre post, s = (pre ++ needle ++ post)%string.
Proof.
  induction s as [|c s IH].
  - change (includes EmptyString needle)
      with (String.prefix needle EmptyString || false).
    rewrite orb_false_r, prefix_spec. split.
    + intros [post H]. now exists EmptyString, post.
    + intros [pre [post H]]. destruct pre; [now exists post|discriminate H].
  - change (includes (String c s) needle)
      with (String.prefix needle (String c s) || includes s needle).
    rewrite orb_true_iff, prefix_spec, IH. split.
    + intros [[post H]|[pre [post H]]].
      * now exists EmptyString, post.
      * exists (String c pre), post. simpl. now rewrite H.
    + intros [[|x pre] [post H]].
      * left. now exists post.
      * right. exists pre, post. simpl in H. congruence.
Qed.

Lemma payloads_app (k : string) (l1 l2 : list QData) :
  payloads k (l1 ++ l2) = (payloads k l1 ++ payloads k l2)%string.
Proof.
  induction l1 as [|d l1 IH]; simpl; [reflexivity|].
  destruct (String.eqb (q_name d) k); [|exact IH].
  now rewrite IH, string_app_assoc.
Qed.

Lemma mentions_app (k : string) (l1 l2 : list QData) :
  mentions k (l1 ++ l2) = mentions k l1 || mentions k l2.
Proof. unfold mentions. apply existsb_app. Qed.

Section EventFacts.

Variable encode : string -> string.
Variable template : list Log -> string.
Variable mjml2html : string -> Mjml.
Variable config : Config.

Local Abbreviation sendMail' := (sendMail encode template mjml2html config).
Local Abbreviation handleEvent' :=
  (handleEvent encode template mjml2html config).
Local Abbreviation step' := (step encode template mjml2html config).
Local Abbreviation run' := (run encode template mjml2html config).
Local Abbreviation render_of qs :=
  (mjml2html (template (logs_of_all encode qs))).
Local Abbreviation fragment event packet :=
  (mkQData event (process_name packet) (data packet)).

(** What a bus event that is accepted does, given its queue. *)
Lemma accepted_event (s : State) (event : Target) (packet : Packet) :
  accepted config event packet = true ->
  In event (map fst (queues s)) ->
  exists qs,
    push (queues s) event (fragment event packet) = Some qs /\
    step' s (Emit event packet) =
    Some (if String.eqb event "log:err"
          then match mailTimeout s with
               | None => arm_timer (with_queues s qs)
               | Some _ => with_queues s qs
               end
          else if includes (data packet) "BROADCST:EMAIL"
               then sendMail' (with_queues s qs) event
               else with_queues s qs).
Proof.
  unfold accepted. intros Hacc Hkey.
  apply andb_true_iff in Hacc as [Hsub Hacc].
  destruct (lookup event (target config)) as [watched|] eqn:Hw; [|discriminate].
  destruct (push_defined (queues s) event (fragment event packet) Hkey)
    as [qs Hpush].
  exists qs. split; [exact Hpush|].
  simpl. rewrite Hsub. unfold handleEvent. rewrite Hw, Hacc, Hpush. simpl.
  destruct (String.eqb event "log:err").
  - now destruct (mailTimeout s).
  - now destruct (includes (data packet) "BROADCST:EMAIL").
Qed.

(** What a bus event that is not accepted does. *)
Lemma unaccepted_event (s s' : State) (event : Target) (packet : Packet) :
  accepted config event packet = false ->
  step' s (Emit event packet) = Some s' ->
  s' = s.
Proof.
  unfold accepted. simpl. intros Hacc.
  destruct (array_includes (eventTypes config) event); [|now intros [= <-]].
  unfold handleEvent. simpl in Hacc.
  destruct (lookup event (target config)) as [watched|]; [|discriminate].
  rewrite Hacc. simpl. now intros [= <-].
Qed.

(** X5.  A bus event starts a dispatch exactly when it is accepted, its
    category is not [log:err] and its payload carries the marker; the
    dispatch then finds the event's own fragment queued.  Every other event,
    an error event whose payload carries the marker included, renders
    nothing, sends nothing and leaves no mail in flight. *)
Theorem event_dispatches_iff_broadcast
        (s s' : State) (event : Target) (packet : Packet) :
  step' s (Emit event packet) = Some s' ->
  if accepted config event packet && is_broadcast (Emit event packet)
  then exists qs,
         push (queues s) event (fragment event packet) = Some qs /\
         rendered (effects s') =
           rendered (effects s) ++ [logs_of_all encode qs] /\
         queues s' = emptied qs
  else effects s' = effects s /\ in_flight s' = in_flight s.
Proof.
  intros Hstep.
  destruct (accepted config event packet) eqn:Hacc; simpl.
  - assert (Hkey : In event (map fst (queues s))).
    { simpl in Hstep. unfold accepted in Hacc.
      apply andb_true_iff in Hacc as [Hsub Hacc]. rewrite Hsub in Hstep.
      unfold handleEvent in Hstep.
      destruct (lookup event (target config)); [|discriminate].
      rewrite Hacc in Hstep. simpl in Hstep.
      destruct (push (queues s) event _) as [qs|] eqn:Hpush; [|discriminate].
      destruct (push_lookup _ _ _ event _ Hpush) as [Hk _].
      apply lookup_keys. intros Hnone.
      assert (Hin : In event (map fst qs)).
      { rewrite Hk. clear - Hpush.
        induction (queues s) as [|[e q] l IH] in qs, Hpush |- *;
          simpl in *; [discriminate|].
        destruct (String.eqb_spec e event) as [->|Hne]; [now left|].
        destruct (push l event _) as [l'|] eqn:E; [|discriminate].
        right. now apply (IH l'). }
      rewrite Hk in Hin. apply lookup_keys in Hin. contradiction. }
    destruct (accepted_event s event packet Hacc Hkey) as [qs [Hpush Hs]].
    rewrite Hs in Hstep. injection Hstep as <-.
    destruct (String.eqb event "log:err"); simpl.
    + now destruct (mailTimeout s).
    + destruct (includes (data packet) "BROADCST:EMAIL"); [|now split].
      exists qs. split; [exact Hpush|].
      rewrite sendMail_rendered, sendMail_queues. now split.
  - now rewrite (unaccepted_event s s' event packet Hacc Hstep).
Qed.

End EventFacts.

Lemma event_dispatches_iff_broadcast_witness :
  (exists s',
      step sample_encode sample_template sample_mjml sample_config
           one_error_pending (Emit "log:err" (svc "x BROADCST:EMAIL")) = Some s' /\
      effects s' = effects one_error_pending /\
      in_flight s' = in_flight one_error_pending) /\
  (exists s',
      step sample_encode sample_template sample_mjml sample_config
           one_error_pending (Emit "log:out" (svc "x BROADCST:EMAIL")) = Some s' /\
      queues s' = [("log:err", []); ("log:out", [])]).
Proof.
  split.
  - eexists. split; [reflexivity|].
    exact (event_dispatches_iff_broadcast
             sample_encode sample_template sample_mjml sample_config
             one_error_pending _ "log:err" (svc "x BROADCST:EMAIL") eq_refl).
  - eexists. split; [reflexivity|].
    destruct (event_dispatches_iff_broadcast
                sample_encode sample_template sample_mjml sample_config
                one_error_pending _ "log:out" (svc "x BROADCST:EMAIL") eq_refl)
      as [qs [Hpush [_ Hq]]].
    injection Hpush as <-. exact Hq.
Defined.

(** ** Intake order, and an error that arrives while a mail is being sent *)

Section IntakeFacts.

Variable encode : string -> string.
Variable template : list Log -> string.
Variable mjml2html : string -> Mjml.
Variable config : Config.

Local Abbreviation sendMail' := (sendMail encode template mjml2html config).
Local Abbreviation step' := (step encode template mjml2html config).
Local Abbreviation run' := (run encode template mjml2html config).
Local Abbreviation render_of qs :=
  (mjml2html (template (logs_of_all encode qs))).
Local Abbreviation fragment event packet :=
  (mkQData event (process_name packet) (data packet)).

Lemma intake_cons (x : Stimulus) (xs : list Stimulus) :
  intake config (x :: xs) = intake config [x] ++ intake config xs.
Proof.
  destruct x as [event packet| |]; simpl; try reflexivity.
  now destruct (accepted config event packet).
Qed.

Lemma quiet_event_queues (s : State) (event : Target) (packet : Packet) :
  (forall ev, In ev (eventTypes config) -> In ev (map fst (queues s))) ->
  is_broadcast (Emit event packet) = false ->
  exists s',
    step' s (Emit event packet) = Some s' /\
    map fst (queues s') = map fst (queues s) /\
    forall ev,
      lookup ev (queues s') =
      option_map (fun q => q ++ of_category ev (intake config [Emit event packet]))
                 (lookup ev (queues s)).
Proof.
  intros Hkeys Hquiet. simpl intake.
  destruct (accepted config event packet) eqn:Hacc.
  - assert (Hkey : In event (map fst (queues s))).
    { apply Hkeys. apply array_includes_In. unfold accepted in Hacc.
      now apply andb_true_iff in Hacc as [Hsub _]. }
    destruct (accepted_event encode template mjml2html config
                s event packet Hacc Hkey) as [qs [Hpush Hs]].
    eexists. split; [exact Hs|].
    assert (Hqs : queues (if String.eqb event "log:err"
                          then match mailTimeout s with
                               | None => arm_timer (with_queues s qs)
                               | Some _ => with_queues s qs
                               end
                          else if includes (data packet) "BROADCST:EMAIL"
                               then sendMail' (with_queues s qs) event
                               else with_queues s qs) = qs).
    { simpl in Hquiet. destruct (String.eqb event "log:err").
      - now destruct (mailTimeout s).
      - simpl in Hquiet. now rewrite Hquiet. }
    rewrite Hqs. split; [exact (proj1 (push_lookup _ _ _ event _ Hpush))|].
    intros ev. destruct (push_lookup _ _ _ ev _ Hpush) as [_ ->].
    unfold of_category. simpl.
    destruct (String.eqb event ev); [reflexivity|].
    destruct (lookup ev (queues s)); simpl; [now rewrite app_nil_r | reflexivity].
  - exists s. split; [|split; [reflexivity|]].
    + simpl. destruct (array_includes (eventTypes config) event) eqn:Hsub;
        [|reflexivity].
      unfold accepted in Hacc. rewrite Hsub in Hacc. simpl in Hacc.
      unfold handleEvent.
      destruct (lookup event (target config)) as [watched|] eqn:Hw.
      * now rewrite Hacc.
      * apply array_includes_In in Hsub. now apply lookup_keys in Hsub.
    + intros ev. simpl.
      destruct (lookup ev (queues s)); simpl; [now rewrite app_nil_r | reflexivity].
Qed.

(** X7.  Over any sequence of bus events none of which starts a dispatch,
    every event is handled, and each queue ends up holding what it held
    followed by the accepted fragments of its category in arrival order;
    events of unwatched processes leave no trace. *)
Theorem intake_keeps_arrival_order (xs : list Stimulus) :
  forall s : State,
    (forall ev, In ev (eventTypes config) -> In ev (map fst (queues s))) ->
    quiet_events xs = true ->
    exists s',
      run' s xs = Some s' /\
      forall ev,
        lookup ev (queues s') =
        option_map (fun q => q ++ of_category ev (intake config xs))
                   (lookup ev (queues s)).
Proof.
  induction xs as [|x xs IH]; intros s Hkeys Hquiet.
  - exists s. split; [reflexivity|]. intros ev. simpl.
    destruct (lookup ev (queues s)); simpl; [now rewrite app_nil_r | reflexivity].
  - simpl in Hquiet. apply andb_true_iff in Hquiet as [Hx Hxs].
    destruct x as [event packet| |]; try discriminate.
    apply negb_true_iff in Hx.
    destruct (quiet_event_queues s event packet Hkeys Hx)
      as [s1 [Hstep [Hk1 Hq1]]].
    destruct (IH s1) as [s' [Hrun Hq']];
      [intros ev Hev; rewrite Hk1; now apply Hkeys | exact Hxs|].
    exists s'. split.
    + cbn [run]. now rewrite Hstep.
    + intros ev. rewrite Hq', Hq1.
      rewrite (intake_cons (Emit event packet) xs).
      unfold of_category. rewrite filter_app.
      destruct (lookup ev (queues s)); simpl;
        [now rewrite app_assoc | reflexivity].
Qed.

(** X8.  An error event that arrives after the timer has fired and before
    its mail has settled is queued without a timer: [mailTimeout] still
    holds the handle of the timer that fired, so [setTimeout] is not called,
    and when the mail settles the fragment sits in the queue with
    [mailTimeout] at [null] and no timer of its own. *)
Theorem error_during_send_gets_no_timer
        (s : State) (h h0 : nat) (packet : Packet) (delivered : bool) :
  In h (timers s) ->
  mailTimeout s = Some h0 ->
  errors (render_of (queues s)) = [] ->
  accepted config "log:err" packet = true ->
  In "log:err" (map fst (queues s)) ->
  exists s',
    run' s [TimerFires h; Emit "log:err" packet; SendSettles delivered]
      = Some s' /\
    lookup "log:err" (queues s') = Some [fragment "log:err" packet] /\
    mailTimeout s' = None /\
    timers s' = remove_handle h (timers s) /\
    next_handle s' = next_handle s.
Proof.
  intros Hh Hslot Hok Hacc Hkey.
  set (s1 := sendMail' (disarm s h) "log:err").
  assert (H1 : step' s (TimerFires h) = Some s1).
  { simpl. apply existsb_handle in Hh. now rewrite Hh. }
  assert (Hs1 : s1 = mkState (emptied (queues s)) (Some h0)
                       (remove_handle h (timers s)) (next_handle s)
                       (S (in_flight s))
                       (effects s1)).
  { unfold s1. rewrite sendMail_unfold. simpl. rewrite Hok. simpl.
    now rewrite Hslot. }
  assert (Hkey1 : In "log:err" (map fst (queues s1))).
  { rewrite Hs1. simpl. now rewrite keys_emptied. }
  destruct (accepted_event encode template mjml2html config
              s1 "log:err" packet Hacc Hkey1) as [qs [Hpush H2]].
  assert (Hm1 : mailTimeout s1 = Some h0) by now rewrite Hs1.
  rewrite String.eqb_refl, Hm1 in H2.
  destruct (push_lookup _ _ _ "log:err" _ Hpush) as [_ Hl].
  rewrite String.eqb_refl in Hl.
  assert (Hq1 : lookup "log:err" (queues s1) = Some []).
  { rewrite Hs1. simpl. rewrite lookup_emptied.
    apply array_includes_In in Hkey. now rewrite Hkey. }
  rewrite Hq1 in Hl. simpl in Hl.
  exists (sendMail_resume (with_queues s1 qs) delivered). split.
  - cbn [run]. rewrite H1, H2. cbn [step].
    assert (Hf : in_flight (with_queues s1 qs) = S (in_flight s))
      by now rewrite Hs1.
    now rewrite Hf.
  - simpl. rewrite Hs1. simpl. auto.
Qed.

End IntakeFacts.

Lemma intake_keeps_arrival_order_witness :
  quiet_events [Emit "log:out" (svc "one"); Emit "log:err" (svc "two");
                Emit "log:out" (mkPacket "other" "dropped");
                Emit "log:out" (svc "three")] = true /\
  exists s',
    sample_run [Emit "log:out" (svc "one"); Emit "log:err" (svc "two");
                Emit "log:out" (mkPacket "other" "dropped");
                Emit "log:out" (svc "three")] = Some s' /\
    lookup "log:out" (queues s')
      = Some [mkQData "log:out" "svc" "one"; mkQData "log:out" "svc" "three"].
Proof.
  split; [reflexivity|].
  destruct (intake_keeps_arrival_order
              sample_encode sample_template sample_mjml sample_config
              [Emit "log:out" (svc "one"); Emit "log:err" (svc "two");
               Emit "log:out" (mkPacket "other" "dropped");
               Emit "log:out" (svc "three")]
              (initial_state sample_config))
    as [s' [Hrun Hq]].
  - intros ev Hev. exact Hev.
  - reflexivity.
  - exists s'. split; [exact Hrun|]. exact (Hq "log:out").
Defined.

Lemma error_during_send_gets_no_timer_witness :
  In 0 (timers one_error_pending) /\
  mailTimeout one_error_pending = Some 0 /\
  exists s',
    run sample_encode sample_template sample_mjml sample_config
        one_error_pending
        [TimerFires 0; Emit "log:err" (svc "late"); SendSettles true]
      = Some s' /\
    lookup "log:err" (queues s') = Some [mkQData "log:err" "svc" "late"] /\
    mailTimeout s' = None /\
    timers s' = [] /\
    next_handle s' = 1.
Proof.
  split; [simpl; auto|]. split; [reflexivity|].
  apply (error_during_send_gets_no_timer
           sample_encode sample_template sample_mjml sample_config
           one_error_pending 0 0 (svc "late") true);
    [simpl; auto | reflexivity | reflexivity | reflexivity | simpl; auto].
Defined.

(** ** The order of the entries of one category *)

Module EntryOrder.
Import JsObject JsObjectFacts.

Lemma insert_by_index_perm (kv : string * value) (l : list (string * value)) :
  Permutation (insert_by_index kv l) (kv :: l).
Proof.
  induction l as [|y l IH]; simpl; [reflexivity|].
  destruct (index_of kv <=? index_of y)%N; [reflexivity|].
  rewrite IH. apply perm_swap.
Qed.

Lemma sort_by_index_perm (l : list (string * value)) :
  Permutation (sort_by_index l) l.
Proof.
  induction l as [|y l IH]; simpl; [reflexivity|].
  rewrite insert_by_index_perm. now constructor.
Qed.

Lemma insert_by_index_hd (y kv : string * value) (l : list (string * value)) :
  HdRel by_index y l -> by_index y kv ->
  HdRel by_index y (insert_by_index kv l).
Proof.
  intros Hl Hy. destruct l as [|z l]; simpl; [now constructor|].
  destruct (index_of kv <=? index_of z)%N; constructor;
    [exact Hy | now inversion Hl].
Qed.

Lemma insert_by_index_sorted (kv : string * value) (l : list (string * value)) :
  Sorted by_index l -> Sorted by_index (insert_by_index kv l).
Proof.
  induction l as [|y l IH]; simpl; intros Hs.
  - repeat constructor.
  - destruct (index_of kv <=? index_of y)%N eqn:E.
    + constructor; [exact Hs|]. constructor. now apply N.leb_le.
    + inversion Hs as [|? ? Hs' Hhd]; subst.
      constructor; [now apply IH|].
      apply insert_by_index_hd; [exact Hhd|].
      apply N.leb_gt in E. unfold by_index. lia.
Qed.

Lemma sort_by_index_sorted (l : list (string * value)) :
  Sorted by_index (sort_by_index l).
Proof.
  induction l as [|y l IH]; simpl; [constructor|].
  now apply insert_by_index_sorted.
Qed.

Lemma sorted_keys (l : list (string * value)) :
  StronglySorted by_index l -> StronglySorted by_index_value (map fst l).
Proof.
  induction 1 as [|kv l Hs IH Hall]; simpl; constructor; [exact IH|].
  apply Forall_map. exact Hall.
Qed.

Lemma filter_keys (o : t) :
  map fst (filter is_index o) = filter names_an_index (map fst o) /\
  map fst (filter (fun kv => negb (is_index kv)) o)
    = filter (fun k => negb (names_an_index k)) (map fst o).
Proof.
  assert (E : forall kv, is_index kv = names_an_index (fst kv))
    by reflexivity.
  induction o as [|kv o [IH1 IH2]]; [now split|].
  cbn [filter map]. rewrite (E kv).
  destruct (names_an_index (fst kv)); cbn [negb map]; now rewrite IH1, IH2.
Qed.

Lemma see_keys (content : t) (d : QData) :
  map fst (add_fragment content d) = see (map fst content) d.
Proof.
  rewrite add_fragment_eq. unfold see.
  destruct (String.eqb (q_name d) "__proto__"); [reflexivity|].
  apply keys_update.
Qed.

(** The own properties of [content] are created in order of first
    appearance of the process names. *)
Lemma content_keys (qdata : list QData) :
  forall content : t,
    map fst (fold_left add_fragment qdata content)
    = fold_left see qdata (map fst content).
Proof.
  induction qdata as [|d l IH]; intros content; simpl; [reflexivity|].
  now rewrite IH, see_keys.
Qed.

Section Entries.

Variable encode : string -> string.

Lemma content_entry (event : Target) (qdata : list QData)
      (kv : string * value) :
  In kv (entries (fold_left add_fragment qdata empty)) ->
  mentions (fst kv) qdata = true /\
  fst kv <> "__proto__" /\
  log_entry encode event kv = entry_for encode event qdata (fst kv).
Proof.
  destruct kv as [k v]. intros Hin. simpl.
  destruct (String.eqb_spec k "__proto__") as [->|Hne];
    [now apply no_entry in Hin; [|left]|].
  destruct (mentions k qdata) eqn:Hm;
    [|now apply no_entry in Hin; [|right]].
  destruct (aggregated_entry encode event qdata k Hne Hm) as [_ Hv].
  rewrite (Hv v Hin). now repeat split.
Qed.

Lemma aggregate_queue_by_keys (event : Target) (qdata : list QData) :
  fst (aggregate_queue encode event qdata)
  = map (entry_for encode event qdata)
        (map fst (entries (fold_left add_fragment qdata empty))).
Proof.
  rewrite aggregate_queue_eq, map_map. simpl.
  apply map_ext_in. intros kv Hin.
  now destruct (content_entry event qdata kv Hin) as [_ [_ ->]].
Qed.

(** X9.  The entries of one category: one entry per process name among the
    fragments ([__proto__] left out), each with the escape of that
    process's payloads in arrival order.  Names that are array indices
    ([0], [17]) come first, in ascending numeric order, and the other names
    follow in order of first appearance, which is the enumeration order of
    [Object.entries(content)]. *)
Theorem entries_of_a_category (event : Target) (qdata : list QData) :
  NoDup (first_seen qdata) /\
  (forall k, In k (first_seen qdata) <->
             k <> "__proto__" /\ mentions k qdata = true) /\
  exists indices,
    fst (aggregate_queue encode event qdata)
    = map (entry_for encode event qdata)
          (indices
           ++ filter (fun k => negb (names_an_index k)) (first_seen qdata)) /\
    Permutation indices (filter names_an_index (first_seen qdata)) /\
    StronglySorted by_index_value indices.
Proof.
  set (content := fold_left add_fragment qdata empty).
  assert (Hkeys : map fst content = first_seen qdata)
    by (unfold content; now rewrite content_keys).
  assert (Hnd : NoDup (map fst content))
    by (apply content_NoDup; constructor).
  split; [now rewrite <- Hkeys|]. split.
  - intros k. rewrite <- Hkeys. split.
    + intros Hin. apply in_map_iff in Hin as [[k' v] [<- Hin]].
      apply (proj2 (In_entries _ _)) in Hin.
      destruct (content_entry event qdata (k', v) Hin) as [Hm [Hne _]].
      now split.
    + intros [Hne Hm].
      assert (Hl : lookup k content
                   = Some (Str (inherited_prefix k ++ payloads k qdata))).
      { unfold content. rewrite content_lookup by exact Hne. now rewrite Hm. }
      apply lookup_In in Hl. apply in_map_iff.
      now exists (k, Str (inherited_prefix k ++ payloads k qdata)).
  - exists (map fst (sort_by_index (filter is_index content))).
    destruct (filter_keys content) as [Hf1 Hf2].
    split; [|split].
    + rewrite aggregate_queue_by_keys. fold content. unfold entries.
      now rewrite map_app, Hf2, Hkeys.
    + rewrite <- Hkeys, <- Hf1. apply Permutation_map, sort_by_index_perm.
    + apply sorted_keys. apply Sorted_StronglySorted.
      * intros a b c. unfold by_index. lia.
      * apply sort_by_index_sorted.
Qed.

End Entries.

End EntryOrder.

Example numeric_names_come_first :
  map log_name
      (fst (aggregate_queue sample_encode "log:err"
              [mkQData "log:err" "web" "a"; mkQData "log:err" "10" "b";
               mkQData "log:err" "9" "c"; mkQData "log:err" "web" "d"]))
  = ["9 log:err"; "10 log:err"; "web log:err"].
Proof. reflexivity. Qed.

(** ** Start-up, all outcomes *)

Module StartupOutcomes.
Import Startup.

Lemma for_each_trace (events : list Target) :
  for_each events (fun event =>
    act (Print ("[PM2] " ++ event ++ " streaming started")) ;;
    act (Subscribe event))
  = (flat_map (fun event =>
                 [Print ("[PM2] " ++ event ++ " streaming started");
                  Subscribe event]) events,
     Fulfilled tt).
Proof.
  induction events as [|e events IH]; [reflexivity|].
  cbn [for_each flat_map]. rewrite IH. reflexivity.
Qed.

(** X11.  Start-up in every case.  The program calls [process.exit], with
    status 1, exactly when the SMTP verification fails, and then it has not
    contacted pm2.  It subscribes, to every event type in configuration
    order, exactly when the SMTP verification, [pm2.connect] and
    [pm2.launchBus] all succeed, each subscription after the line that
    announces it; in every other case it subscribes to nothing. *)
Theorem startup_outcomes (events : list Target) (w : World) :
  exit_status (main events w)
    = (if smtp_verified w then None else Some 1) /\
  (smtp_verified w = false ->
   main events w = ([PrintError "SMTP connection failed:"; Exit 1], Exited 1)) /\
  subscriptions (main events w)
    = (if smtp_verified w && pm2_connected w && bus_launched w
       then map Subscribe events else []) /\
  main events (mkWorld true true true)
    = ([Print "SMTP server is ready to take messages";
        Print "[PM2] Log streaming connected";
        Print "[PM2] Log streaming launched"]
       ++ flat_map (fun event =>
                      [Print ("[PM2] " ++ event ++ " streaming started");
                       Subscribe event]) events,
       Fulfilled tt).
Proof.
  assert (Hall : main events (mkWorld true true true)
                 = ([Print "SMTP server is ready to take messages";
                     Print "[PM2] Log streaming connected";
                     Print "[PM2] Log streaming launched"]
                    ++ flat_map (fun event =>
                         [Print ("[PM2] " ++ event ++ " streaming started");
                          Subscribe event]) events,
                    Fulfilled tt)).
  { unfold main, main_body. rewrite for_each_trace. reflexivity. }
  split; [|split; [|split; [|exact Hall]]].
  - destruct w as [[|] [|] [|]]; try reflexivity. rewrite Hall. reflexivity.
  - destruct w as [v c l]. simpl. now intros ->.
  - destruct w as [[|] [|] [|]]; try reflexivity.
    rewrite Hall. clear Hall. unfold subscriptions. simpl.
    induction events as [|e events IH]; simpl; [reflexivity | now rewrite IH].
Qed.

End StartupOutcomes.

Lemma startup_outcomes_witness :
  Startup.main ["log:err"; "log:out"] (Startup.mkWorld false true true)
  = ([Startup.PrintError "SMTP connection failed:"; Startup.Exit 1],
     Startup.Exited 1).
Proof.
  destruct (StartupOutcomes.startup_outcomes
              ["log:err"; "log:out"] (Startup.mkWorld false true true))
    as (_ & H & _).
  exact (H eq_refl).
Defined.

(** ** A burst of error events *)

Section ErrorBurst.

Variable encode : string -> string.
Variable template : list Log -> string.
Variable mjml2html : string -> Mjml.
Variable config : Config.

Local Abbreviation step' := (step encode template mjml2html config).
Local Abbreviation run' := (run encode template mjml2html config).

Lemma error_event_step (s : State) (packet : Packet) :
  In "log:err" (map fst (queues s)) ->
  exists s',
    step' s (Emit "log:err" packet) = Some s' /\
    map fst (queues s') = map fst (queues s) /\
    effects s' = effects s /\ in_flight s' = in_flight s /\
    if accepted config "log:err" packet
    then match mailTimeout s with
         | None => timers s' = timers s ++ [next_handle s] /\
                   mailTimeout s' = Some (next_handle s)
         | Some h => timers s' = timers s /\ mailTimeout s' = Some h /\
                     next_handle s' = next_handle s
         end
    else s' = s.
Proof.
  intros Hkey.
  destruct (accepted config "log:err" packet) eqn:Hacc.
  - destruct (accepted_event encode template mjml2html config
                s "log:err" packet Hacc Hkey) as [qs [Hpush Hs]].
    rewrite String.eqb_refl in Hs.
    destruct (push_lookup _ _ _ "log:err" _ Hpush) as [Hk _].
    eexists. split; [exact Hs|].
    destruct (mailTimeout s) eqn:Hm; simpl; rewrite ?Hm; repeat split;
      reflexivity || exact Hk.
  - exists s. repeat split; try reflexivity.
    simpl. destruct (array_includes (eventTypes config) "log:err") eqn:Hsub;
      [|reflexivity].
    unfold accepted in Hacc. rewrite Hsub in Hacc. simpl in Hacc.
    unfold handleEvent.
    destruct (lookup "log:err" (target config)) as [watched|] eqn:Hw.
    + now rewrite Hacc.
    + apply array_includes_In in Hsub. now apply lookup_keys in Hsub.
Qed.

Lemma error_burst_while_pending (xs : list Stimulus) :
  forall (s : State) (h : nat),
    In "log:err" (map fst (queues s)) ->
    error_events xs = true ->
    mailTimeout s = Some h ->
    exists s',
      run' s xs = Some s' /\
      effects s' = effects s /\ in_flight s' = in_flight s /\
      timers s' = timers s /\ mailTimeout s' = Some h /\
      next_handle s' = next_handle s.
Proof.
  induction xs as [|x xs IH]; intros s h Hkey Hxs Hslot.
  - exists s. now repeat split.
  - simpl in Hxs. apply andb_true_iff in Hxs as [Hx Hxs].
    destruct x as [event packet| |]; try discriminate.
    apply String.eqb_eq in Hx. subst event.
    destruct (error_event_step s packet Hkey)
      as [s1 [Hstep [Hk [He [Hf Hcase]]]]].
    assert (H1 : timers s1 = timers s /\ mailTimeout s1 = Some h /\
                 next_handle s1 = next_handle s).
    { destruct (accepted config "log:err" packet).
      - now rewrite Hslot in Hcase.
      - now subst s1. }
    destruct H1 as [Ht [Hm Hn]].
    destruct (IH s1 h) as [s' [Hrun [He' [Hf' [Ht' [Hm' Hn']]]]]];
      [now rewrite Hk | exact Hxs | exact Hm|].
    exists s'. cbn [run]. rewrite Hstep.
    repeat split; congruence.
Qed.

(** X12.  Any burst of error events, of whatever processes and payloads,
    arms one timer and not more: starting with [mailTimeout] at [null], the
    events are all handled, the first accepted one arms the timer, the later
    ones arm none, nothing is rendered or sent; a burst with no accepted
    event arms no timer. *)
Theorem error_burst_arms_one_timer (xs : list Stimulus) :
  forall s : State,
    In "log:err" (map fst (queues s)) ->
    error_events xs = true ->
    mailTimeout s = None ->
    exists s',
      run' s xs = Some s' /\
      effects s' = effects s /\ in_flight s' = in_flight s /\
      match intake config xs with
      | [] => timers s' = timers s /\ mailTimeout s' = None
      | _ :: _ => timers s' = timers s ++ [next_handle s] /\
                  mailTimeout s' = Some (next_handle s)
      end.
Proof.
  induction xs as [|x xs IH]; intros s Hkey Hxs Hslot.
  - exists s. now repeat split.
  - simpl in Hxs. apply andb_true_iff in Hxs as [Hx Hxs].
    destruct x as [event packet| |]; try discriminate.
    apply String.eqb_eq in Hx. subst event.
    destruct (error_event_step s packet Hkey)
      as [s1 [Hstep [Hk [He [Hf Hcase]]]]].
    cbn [run intake]. rewrite Hstep.
    destruct (accepted config "log:err" packet).
    + rewrite Hslot in Hcase. destruct Hcase as [Ht Hm].
      destruct (error_burst_while_pending xs s1 (next_handle s))
        as [s' [Hrun [He' [Hf' [Ht' [Hm' _]]]]]];
        [now rewrite Hk | exact Hxs | exact Hm|].
      exists s'. repeat split; congruence.
    + subst s1. now apply IH.
Qed.

End ErrorBurst.

Lemma error_burst_arms_one_timer_witness :
  error_events sample_burst = true /\
  exists s',
    sample_run sample_burst = Some s' /\
    effects s' = [] /\
    timers s' = [0] /\ mailTimeout s' = Some 0.
Proof.
  split; [reflexivity|].
  destruct (error_burst_arms_one_timer
              sample_encode sample_template sample_mjml sample_config
              sample_burst (initial_state sample_config))
    as [s' [Hrun [He [_ [Ht Hm]]]]];
    [simpl; auto | reflexivity | reflexivity|].
  exists s'. repeat split; assumption.
Defined.

(** ** What a dispatch renders, and what it leaves behind *)

Section DispatchFacts.

Variable encode : string -> string.
Variable template : list Log -> string.
Variable mjml2html : string -> Mjml.
Variable config : Config.

Local Abbreviation sendMail' := (sendMail encode template mjml2html config).
Local Abbreviation step' := (step encode template mjml2html config).
Local Abbreviation run' := (run encode template mjml2html config).

Lemma enumerable_neq (ev : Target) :
  enumerable ev = true <-> ev <> "__proto__".
Proof.
  unfold enumerable. rewrite negb_true_iff. apply String.eqb_neq.
Qed.

(** The entry of process [k] of a listed category is among the logs. *)
Lemma listed_fragment_entry (qs : Queues) (ev : Target) (q : list QData)
      (k : string) :
  In (ev, q) qs ->
  ev <> "__proto__" -> k <> "__proto__" -> mentions k q = true ->
  In (entry_for encode ev q k) (logs_of_all encode qs).
Proof.
  intros Hin Hev Hk Hm.
  apply (logs_of_all_covers encode qs ev q); [exact Hin | |].
  - now apply enumerable_neq.
  - now destruct (aggregated_entry encode ev q k Hk Hm) as [H _].
Qed.



(** The array held as prototype is not touched by a dispatch. *)
Lemma dispatch_keeps_proto_queue (s : State) (trigger : Target) :
  lookup "__proto__" (queues (sendMail' s trigger))
  = lookup "__proto__" (queues s).
Proof. rewrite sendMail_queues. now rewrite lookup_emptied. Qed.

End DispatchFacts.


(** C5.  A category named [__proto__] is never aggregated.  With
    [config.target] holding the own keys [__proto__] and [log:err], an error
    of [svc] and then a broadcast event of [svc] on [__proto__]: the
    dispatch that this event triggers renders the error fragment only, and
    leaves the fragment of its own category queued, because the array of
    that category is the prototype of [queues], which
    [Object.entries(queues)] does not list. *)
Theorem proto_category_is_not_aggregated
        (encode : string -> string) (template : list Log -> string)
        (mjml2html : string -> Mjml) :
  let run' := run encode template mjml2html proto_config in
  exists s,
    run' (initial_state proto_config)
         [Emit "log:err" (svc "A"); Emit "__proto__" (svc "BROADCST:EMAIL")]
      = Some s /\
    rendered (effects s) = [[mkLog "svc log:err" (encode "A")]] /\
    lookup "log:err" (queues s) = Some [] /\
    lookup "__proto__" (queues s)
      = Some [mkQData "__proto__" "svc" "BROADCST:EMAIL"].
Proof.
  intros run'. eexists. split; [reflexivity|].
  split; [rewrite sendMail_rendered; reflexivity|].
  rewrite sendMail_queues. split; reflexivity.
Qed.

(** C7.  A fragment of the category [__proto__] is left behind by every
    drain.  With the same configuration, after an accepted event of [svc]
    on [__proto__] and an error of [svc], two dispatches in a row, whatever
    triggers them: the first renders the error fragment, the second an empty
    list, the queue of [log:err] is empty, and the fragment of [__proto__]
    is in neither rendering and still queued: it is drained not once but
    never. *)
Theorem proto_category_fragment_is_left_behind
        (encode : string -> string) (template : list Log -> string)
        (mjml2html : string -> Mjml) :
  let sendMail' := sendMail encode template mjml2html proto_config in
  let run' := run encode template mjml2html proto_config in
  exists s0,
    run' (initial_state proto_config)
         [Emit "__proto__" (svc "x"); Emit "log:err" (svc "A")] = Some s0 /\
    forall t1 t2,
      rendered (effects (sendMail' (sendMail' s0 t1) t2))
        = [[mkLog "svc log:err" (encode "A")]; []] /\
      lookup "log:err" (queues (sendMail' (sendMail' s0 t1) t2)) = Some [] /\
      lookup "__proto__" (queues (sendMail' (sendMail' s0 t1) t2))
        = Some [mkQData "__proto__" "svc" "x"].
Proof.
  intros sendMail' run'. eexists. split; [reflexivity|].
  intros t1 t2. unfold sendMail'. split; [|split].
  - rewrite !sendMail_rendered, sendMail_queues. reflexivity.
  - rewrite !sendMail_queues. reflexivity.
  - rewrite !dispatch_keeps_proto_queue. reflexivity.
Qed.

(** ** The queues at start-up *)

(** X1.  With the keys of [config.target] distinct, as [Object.keys] returns
    them, [Object.entries(queues)] at start-up is one empty queue per
    configured event type other than [__proto__], in the order of the
    configuration; and [queues[event]] reads an empty array for every
    configured event type, for [__proto__] the array installed as
    prototype. *)
Theorem initial_queues_in_config_order (config : Config) :
  NoDup (eventTypes config) ->
  own_queues (initial_queues config)
    = map (fun ev => (ev, [])) (filter enumerable (eventTypes config)) /\
  forall ev, In ev (eventTypes config) ->
             lookup ev (initial_queues config) = Some [].
Proof.
  intros Hnd. unfold initial_queues.
  rewrite initial_queues_fold; [|exact Hnd | intros ev _ []].
  cbn [app]. split.
  - unfold own_queues. induction (eventTypes config) as [|e l IH];
      [reflexivity|].
    cbn [map filter fst]. inversion Hnd; subst.
    destruct (enumerable e); cbn [map]; now rewrite IH.
  - intros ev Hev. clear Hnd. induction (eventTypes config) as [|e l IH];
      [contradiction|].
    cbn [map lookup]. destruct (String.eqb_spec e ev) as [|Hne];
      [reflexivity|].
    apply IH. now destruct Hev.
Qed.

Lemma initial_queues_in_config_order_witness :
  NoDup (eventTypes proto_config) /\
  own_queues (initial_queues proto_config) = [("log:err", [])] /\
  lookup "__proto__" (initial_queues proto_config) = Some [].
Proof.
  assert (Hnd : NoDup (eventTypes proto_config)).
  { repeat constructor; simpl; intuition discriminate. }
  destruct (initial_queues_in_config_order proto_config Hnd) as [H1 H2].
  split; [exact Hnd|]. split; [exact H1|].
  apply H2. simpl. auto.
Defined.

(** ** From an event to the next dispatch *)

Section NextDispatch.

Variable encode : string -> string.
Variable template : list Log -> string.
Variable mjml2html : string -> Mjml.
Variable config : Config.

Local Abbreviation sendMail' := (sendMail encode template mjml2html config).
Local Abbreviation step' := (step encode template mjml2html config).
Local Abbreviation run' := (run encode template mjml2html config).

Lemma intake_app (xs ys : list Stimulus) :
  intake config (xs ++ ys) = intake config xs ++ intake config ys.
Proof.
  induction xs as [|x xs IH]; [reflexivity|].
  destruct x as [event packet| |]; simpl; try exact IH.
  destruct (accepted config event packet); simpl; now rewrite IH.
Qed.

Lemma lookup_grow_nil (qs : Queues) (ev : Target) :
  lookup ev qs = option_map (fun q => q ++ of_category ev []) (lookup ev qs).
Proof.
  destruct (lookup ev qs); simpl; [now rewrite app_nil_r | reflexivity].
Qed.

(** What a bus event does to the queues before any branch on its category:
    nothing if it is not accepted, a push if it is. *)
Lemma event_intake (s s' : State) (event : Target) (packet : Packet) :
  step' s (Emit event packet) = Some s' ->
  exists qs,
    map fst qs = map fst (queues s) /\
    (forall ev,
        lookup ev qs =
        option_map (fun q => q ++ of_category ev
                                   (intake config [Emit event packet]))
                   (lookup ev (queues s))) /\
    s' = if accepted config event packet
         then if String.eqb event "log:err"
              then match mailTimeout s with
                   | None => arm_timer (with_queues s qs)
                   | Some _ => with_queues s qs
                   end
              else if includes (data packet) "BROADCST:EMAIL"
                   then sendMail' (with_queues s qs) event
                   else with_queues s qs
         else s.
Proof.
  simpl. unfold accepted.
  destruct (array_includes (eventTypes config) event); simpl.
  - unfold handleEvent.
    destruct (lookup event (target config)) as [watched|]; [|discriminate].
    destruct (array_includes watched (process_name packet)); simpl.
    + destruct (push (queues s) event _) as [qs|] eqn:Hpush; [|discriminate].
      intros Hs. exists qs.
      split; [exact (proj1 (push_lookup _ _ _ event _ Hpush))|]. split.
      * intros ev. destruct (push_lookup _ _ _ ev _ Hpush) as [_ ->].
        unfold of_category. simpl.
        destruct (String.eqb event ev); [reflexivity|].
        apply lookup_grow_nil.
      * destruct (String.eqb event "log:err").
        -- destruct (mailTimeout s) eqn:Hm; simpl in Hs; rewrite ?Hm in Hs;
             now injection Hs as <-.
        -- destruct (includes (data packet) "BROADCST:EMAIL");
             now injection Hs as <-.
    + intros [= <-]. exists (queues s).
      split; [reflexivity|]. split; [apply lookup_grow_nil | reflexivity].
  - intros [= <-]. exists (queues s).
    split; [reflexivity|]. split; [apply lookup_grow_nil | reflexivity].
Qed.

Lemma no_dispatch_step (s s' : State) (x : Stimulus) :
  no_dispatch [x] = true ->
  step' s x = Some s' ->
  rendered (effects s') = rendered (effects s) /\
  map fst (queues s') = map fst (queues s) /\
  forall ev,
    lookup ev (queues s') =
    option_map (fun q => q ++ of_category ev (intake config [x]))
               (lookup ev (queues s)).
Proof.
  intros Hx Hstep. destruct x as [event packet|h|delivered].
  - destruct (event_intake s s' event packet Hstep) as [qs [Hk [Hl Hs']]].
    simpl in Hx. rewrite andb_true_r in Hx. apply negb_true_iff in Hx.
    simpl in Hx. cbn [intake] in *.
    destruct (accepted config event packet).
    + assert (queues s' = qs /\ effects s' = effects s) as [Hq He].
      { destruct (String.eqb event "log:err"); simpl in Hx.
        - subst s'. now destruct (mailTimeout s).
        - rewrite Hx in Hs'. now subst s'. }
      rewrite Hq, He. now repeat split.
    + subst s'. repeat split. intros ev. apply lookup_grow_nil.
  - discriminate.
  - simpl in Hstep. destruct (in_flight s); [discriminate|].
    injection Hstep as <-. simpl. rewrite rendered_app.
    split; [destruct delivered; simpl; apply app_nil_r|].
    split; [reflexivity | intros ev; apply lookup_grow_nil].
Qed.

Lemma no_dispatch_run (xs : list Stimulus) :
  forall s s',
    no_dispatch xs = true ->
    run' s xs = Some s' ->
    rendered (effects s') = rendered (effects s) /\
    map fst (queues s') = map fst (queues s) /\
    forall ev,
      lookup ev (queues s') =
      option_map (fun q => q ++ of_category ev (intake config xs))
                 (lookup ev (queues s)).
Proof.
  induction xs as [|x xs IH]; intros s s' Hxs Hrun.
  - injection Hrun as <-. repeat split. intros ev. apply lookup_grow_nil.
  - cbn [run] in Hrun. destruct (step' s x) as [s1|] eqn:Hstep; [|discriminate].
    cbn [no_dispatch forallb] in Hxs. apply andb_true_iff in Hxs as [Hx Hxs].
    destruct (no_dispatch_step s s1 x) as [Hr1 [Hk1 Hl1]];
      [cbn [no_dispatch forallb]; now rewrite Hx | exact Hstep|].
    destruct (IH s1 s' Hxs Hrun) as [Hr [Hk Hl]].
    split; [congruence|]. split; [congruence|].
    intros ev. rewrite Hl, Hl1.
    change (x :: xs) with ([x] ++ xs). rewrite intake_app.
    unfold of_category. rewrite filter_app.
    destruct (lookup ev (queues s)); simpl; [now rewrite app_assoc | reflexivity].
Qed.

(** The state in which [sendMail] is called by a dispatching stimulus. *)
Lemma dispatch_step (s s' : State) (x : Stimulus) :
  dispatches config s x = true ->
  step' s x = Some s' ->
  exists qs,
    map fst qs = map fst (queues s) /\
    (forall ev,
        lookup ev qs =
        option_map (fun q => q ++ of_category ev (intake config [x]))
                   (lookup ev (queues s))) /\
    rendered (effects s') = rendered (effects s) ++ [logs_of_all encode qs] /\
    queues s' = emptied qs.
Proof.
  intros Hd Hstep. destruct x as [event packet|h|delivered].
  - destruct (event_intake s s' event packet Hstep) as [qs [Hk [Hl Hs']]].
    simpl in Hd. apply andb_true_iff in Hd as [Hacc Hb].
    apply andb_true_iff in Hb as [Hne Hb]. rewrite Hacc in Hs'.
    apply negb_true_iff in Hne. rewrite Hne, Hb in Hs'. subst s'.
    exists qs. rewrite sendMail_rendered, sendMail_queues. now repeat split.
  - simpl in Hd, Hstep. rewrite Hd in Hstep. injection Hstep as <-.
    exists (queues s). rewrite sendMail_rendered, sendMail_queues.
    repeat split. intros ev. apply lookup_grow_nil.
  - discriminate.
Qed.

(** X6.  No accepted fragment is lost on the way to the template.  Take any
    state, any sequence of bus events that start no dispatch and of mails
    settling, and then the first stimulus that starts a dispatch, a timer
    firing or an accepted broadcast event.  For a category other than
    [__proto__], let [arrived] be the fragments its queue held at the
    beginning followed by the accepted fragments of that category that came
    since, the one of the broadcast event included, in arrival order.  Then
    that dispatch is the only rendering since the beginning, and for every
    process other than [__proto__] with a fragment in [arrived] its logs
    hold the entry of that process and category whose message is the
    escape of the process's payloads in [arrived], in order; afterwards the
    queue is empty. *)
Theorem fragments_reach_the_next_dispatch
        (s s1 s2 : State) (xs : list Stimulus) (x : Stimulus)
        (ev : Target) (q : list QData) (k : string) :
  no_dispatch xs = true ->
  run' s xs = Some s1 ->
  dispatches config s1 x = true ->
  step' s1 x = Some s2 ->
  lookup ev (queues s) = Some q ->
  ev <> "__proto__" ->
  k <> "__proto__" ->
  let arrived := q ++ of_category ev (intake config (xs ++ [x])) in
  mentions k arrived = true ->
  exists logs,
    rendered (effects s2) = rendered (effects s) ++ [logs] /\
    In (mkLog (k ++ " " ++ ev)
              (encode (inherited_prefix k ++ payloads k arrived)%string))
       logs /\
    lookup ev (queues s2) = Some [].
Proof.
  intros Hxs Hrun Hd Hstep Hq Hev Hk arrived Hm.
  destruct (no_dispatch_run xs s s1 Hxs Hrun) as [Hr1 [Hk1 Hl1]].
  destruct (dispatch_step s1 s2 x Hd Hstep) as [qs [Hkq [Hlq [Hr2 Hq2]]]].
  assert (Hfound : lookup ev qs = Some arrived).
  { rewrite Hlq, Hl1, Hq. simpl. unfold arrived.
    rewrite intake_app. unfold of_category. rewrite filter_app.
    now rewrite app_assoc. }
  exists (logs_of_all encode qs). split; [congruence|]. split.
  - apply (listed_fragment_entry encode qs ev arrived k);
      [now apply lookup_In | exact Hev | exact Hk | exact Hm].
  - rewrite Hq2, lookup_emptied.
    rewrite (proj2 (enumerable_neq ev) Hev).
    assert (Hin : In ev (map fst qs)) by (apply lookup_keys; congruence).
    apply array_includes_In in Hin. now rewrite Hin.
Qed.

End NextDispatch.

Lemma fragments_reach_the_next_dispatch_witness :
  no_dispatch [Emit "log:out" (svc "plain")] = true /\
  run sample_encode sample_template sample_mjml sample_config
      one_error_pending [Emit "log:out" (svc "plain")] = Some plain_queued /\
  dispatches sample_config plain_queued
             (Emit "log:out" (svc "BROADCST:EMAIL")) = true /\
  step sample_encode sample_template sample_mjml sample_config
       plain_queued (Emit "log:out" (svc "BROADCST:EMAIL"))
    = Some plain_dispatched /\
  exists logs,
    rendered (effects plain_dispatched)
      = rendered (effects one_error_pending) ++ [logs] /\
    In (mkLog "svc log:out" "plainBROADCST:EMAIL") logs /\
    lookup "log:out" (queues plain_dispatched) = Some [].
Proof.
  split; [reflexivity|]. split; [reflexivity|].
  split; [reflexivity|]. split; [reflexivity|].
  assert (Hev : "log:out" <> "__proto__") by discriminate.
  assert (Hk : "svc" <> "__proto__") by discriminate.
  exact (fragments_reach_the_next_dispatch
           sample_encode sample_template sample_mjml sample_config
           one_error_pending plain_queued plain_dispatched
           [Emit "log:out" (svc "plain")]
           (Emit "log:out" (svc "BROADCST:EMAIL")) "log:out" [] "svc"
           eq_refl eq_refl eq_refl eq_refl eq_refl Hev Hk eq_refl).
Defined.

(** ** Entries in order of first appearance *)

Section FirstAppearance.
Import JsObject JsObjectFacts.

Variable encode : string -> string.

Lemma array_includes_filter (l : list string) (k : string) :
  k <> "__proto__" ->
  array_includes (filter enumerable l) k = array_includes l k.
Proof.
  intros Hk. induction l as [|y l IH]; [reflexivity|].
  cbn [filter]. destruct (enumerable y) eqn:E; cbn [array_includes].
  - now rewrite IH.
  - rewrite IH. unfold enumerable in E. apply negb_false_iff in E.
    apply String.eqb_eq in E. subst y.
    destruct (String.eqb_spec "__proto__" k); [congruence | reflexivity].
Qed.

Lemma first_seen_filters (qdata : list QData) :
  forall seen : list string,
    fold_left see qdata (filter enumerable seen)
    = filter enumerable
        (fold_left (fun seen d => if array_includes seen (q_name d)
                                  then seen else seen ++ [q_name d])
                   qdata seen).
Proof.
  induction qdata as [|d l IH]; intros seen; [reflexivity|].
  cbn [fold_left]. rewrite <- IH. f_equal. unfold see.
  destruct (String.eqb_spec (q_name d) "__proto__") as [E|Hne].
  - destruct (array_includes seen (q_name d)); [reflexivity|].
    rewrite filter_app, E. cbn. now rewrite app_nil_r.
  - rewrite (array_includes_filter seen (q_name d) Hne).
    destruct (array_includes seen (q_name d)); [reflexivity|].
    rewrite filter_app. cbn [filter].
    now rewrite (proj2 (enumerable_neq (q_name d)) Hne).
Qed.

(** X10.  When no process name among the fragments is an array index, the
    entries of a category are listed in the order in which the processes
    first logged, one entry per process name other than [__proto__]; a
    process named [__proto__] has no entry.  Each entry is labelled with
    the process and the category and holds the escape of the process's
    payloads in arrival order, after the text inherited from
    [Object.prototype] for names such as [constructor]. *)
Theorem entries_in_first_seen_order (event : Target) (qdata : list QData) :
  (forall d, In d qdata -> names_an_index (q_name d) = false) ->
  fst (aggregate_queue encode event qdata)
  = map (fun k => mkLog (k ++ " " ++ event)
                        (encode (inherited_prefix k ++ payloads k qdata)%string))
        (filter (fun k => negb (String.eqb k "__proto__"))
                (first_appearances qdata)).
Proof.
  intros Hplain.
  set (content := fold_left add_fragment qdata empty).
  assert (Hno : forall kv, In kv content -> is_index kv = false).
  { intros kv Hin. apply (proj2 (In_entries _ _)) in Hin.
    destruct (EntryOrder.content_entry encode event qdata kv Hin) as [Hm _].
    unfold mentions in Hm. apply existsb_exists in Hm as [d [Hd E]].
    apply String.eqb_eq in E.
    change (names_an_index (fst kv) = false). rewrite <- E. now apply Hplain. }
  assert (He : entries content = content).
  { unfold entries.
    assert (H1 : filter is_index content = []).
    { clear - Hno. induction content as [|kv l IH]; simpl; [reflexivity|].
      rewrite (Hno kv) by now left. apply IH. intros x Hx. apply Hno. now right. }
    assert (H2 : filter (fun kv => negb (is_index kv)) content = content).
    { clear - Hno. induction content as [|kv l IH]; simpl; [reflexivity|].
      rewrite (Hno kv) by now left. simpl. f_equal.
      apply IH. intros x Hx. apply Hno. now right. }
    now rewrite H1, H2. }
  rewrite EntryOrder.aggregate_queue_by_keys. fold content. rewrite He.
  unfold content. rewrite EntryOrder.content_keys.
  change (map fst empty) with (filter enumerable []).
  rewrite first_seen_filters. reflexivity.
Qed.

End FirstAppearance.

Lemma entries_in_first_seen_order_witness :
  (forall d,
      In d [mkQData "log:err" "web" "a"; mkQData "log:err" "__proto__" "x";
            mkQData "log:err" "api" "b"; mkQData "log:err" "web" "c"] ->
      names_an_index (q_name d) = false) /\
  fst (aggregate_queue sample_encode "log:err"
         [mkQData "log:err" "web" "a"; mkQData "log:err" "__proto__" "x";
          mkQData "log:err" "api" "b"; mkQData "log:err" "web" "c"])
  = [mkLog "web log:err" "ac"; mkLog "api log:err" "b"].
Proof.
  assert (H : forall d,
             In d [mkQData "log:err" "web" "a";
                   mkQData "log:err" "__proto__" "x";
                   mkQData "log:err" "api" "b"; mkQData "log:err" "web" "c"] ->
             names_an_index (q_name d) = false).
  { intros d [<-|[<-|[<-|[<-|[]]]]]; reflexivity. }
  split; [exact H|].
  exact (entries_in_first_seen_order sample_encode "log:err" _ H).
Defined.
